(** * Gesture recognition of [src/js/touch.js], and the slider's [setRatio]

    A shallow embedding of the three classes of the reader's touch module:

    - [TouchGestureListener] (module [Gesture]): the classifier that turns
      the start / move / end / cancel signals into named actions;
    - [TouchMoveListener] (module [Pointer]): the normaliser that turns the
      DOM's mouse and touch events into those four signals;
    - the value logic of [RangeInput] (module [Range]): [setRatio],
      [mouseMove], [normalizeConfig], [normalizeValue], [updateValue] and
      [keyboardHandler];
    - the classifier wired to its normaliser (module [Wiring]).

    JavaScript numbers are idealised as real numbers: no rounding, no NaN,
    no infinities, no signed zero.  The builtins of [Math] used by the
    source are given their real-valued meaning in module [Math]. *)

From Stdlib Require Import Reals Lra Lia ZArith List String.
From stdpp Require Import gmap strings list.
Import ListNotations.

Open Scope R_scope.

(** ** The builtins of [Math] *)

Module Math.

Definition PI : R := Rtrigo1.PI.

Definition abs (x : R) : R := Rabs x.
Definition min (x y : R) : R := Rmin x y.
Definition max (x y : R) : R := Rmax x y.

(** [Math.floor] and [Math.round] return integral numbers; the integer is
    kept as a [Z] and injected back with [IZR] where the source computes
    with it.  [Math.round] rounds halves up. *)
Definition floor (x : R) : Z := Zfloor x.
Definition round (x : R) : Z := Zfloor (x + 1 / 2).

Definition hypot (x y : R) : R := sqrt (x * x + y * y).

(** The two-argument arctangent, with values in (-PI, PI]. *)
Definition atan2 (y x : R) : R :=
  if Rlt_dec 0 x then atan (y / x)
  else if Rlt_dec x 0 then
    (if Rle_dec 0 y then atan (y / x) + PI else atan (y / x) - PI)
  else if Rlt_dec 0 y then PI / 2
  else if Rlt_dec y 0 then - PI / 2
  else 0.

End Math.

(** ** Completions: a handler returns normally or throws *)

Inductive Result (A : Type) : Type :=
| Ok (a : A)
| TypeError.
Arguments Ok {A} a.
Arguments TypeError {A}.

Definition bind {A B : Type} (r : Result A) (k : A -> Result B) : Result B :=
  match r with
  | Ok a => k a
  | TypeError => TypeError
  end.

Notation "'let*' x ':=' r 'in' k" := (bind r (fun x => k))
  (at level 10, x name, r at level 100, k at level 200).

(** ** Values shared by the classes *)

(** [@typedef {[number, number]} Point]; a variable of that type may hold
    [null]. *)
Definition Point : Type := R * R.

Definition is_null {A : Type} (v : option A) : bool :=
  match v with
  | None => true
  | Some _ => false
  end.

(** [p[0]] and [p[1]]: reading an index of [null] throws. *)
Definition at0 (p : option Point) : Result R :=
  match p with
  | Some (a, _) => Ok a
  | None => TypeError
  end.

Definition at1 (p : option Point) : Result R :=
  match p with
  | Some (_, b) => Ok b
  | None => TypeError
  end.

(** [arr[k]] for an integral number [k]: [undefined] out of range. *)
Definition js_index {A : Type} (arr : list A) (k : Z) : option A :=
  if (k <? 0)%Z then None else nth_error arr (Z.to_nat k).

(** The four signals of [TouchMoveListener.triggerCallback]. *)
Inductive Signal : Type :=
| Start (x y : R)
| Move (x y : R)
| End
| Cancel.

(** ** [TouchGestureListener] *)

Module Gesture.

(** [@typedef {'x'|'y'} Direction] *)
Inductive Direction : Type := DirX | DirY.

(** The constructor's options, with the field [minDistance] computed from
    them. *)
Record Config : Type := mkConfig {
  minDistanceX : R;
  minDistanceY : R;
  clickParts : R;
  yRadian : R
}.

Definition defaults : Config := mkConfig 20 20 3 (Math.PI / 2).

Definition minDistance (c : Config) : R :=
  Math.min (minDistanceX c) (minDistanceY c).

(** The closure variables [startPos], [lastPos] and [direction]. *)
Record Session : Type := mkSession {
  startPos : option Point;
  lastPos : option Point;
  direction : option Direction
}.

Definition idle : Session := mkSession None None None.

(** One call of [this.trigger]: [action] is a string or [undefined];
    [offset] is [None] for a call [this.trigger(action)], which leaves the
    second argument out. *)
Record Fired : Type := fire {
  action : option string;
  offset : option R
}.

Definition calculateDirection (c : Config) (d : R * R) : option Direction :=
  let '(dx, dy) := d in
  let distance := Math.hypot dx dy in
  if Rgt_dec distance (minDistance c) then
    let angle := Math.atan2 dy dx in
    if Rlt_dec
         (Math.abs (angle - (if Rgt_dec angle 0 then 1 else -1) * Math.PI / 2))
         (yRadian c / 2)
    then Some DirY else Some DirX
  else None.

(** The angular rule as the design words it: the deviation of the angle
    from the vertical ray picked by the sign of [dy]; on the x axis
    ([dy = 0]) either vertical ray is a right angle away. *)
Definition ray_deviation (dx dy : R) : R :=
  if Rlt_dec 0 dy then Math.abs (Math.atan2 dy dx - Math.PI / 2)
  else if Rlt_dec dy 0 then Math.abs (Math.atan2 dy dx + Math.PI / 2)
  else Math.PI / 2.

Definition touchStartHandler (x y : R) : Session * list Fired :=
  (mkSession (Some (x, y)) (Some (x, y)) None, []).

Definition touchCancelHandler (s : Session) : Session * list Fired :=
  (idle,
   match direction s with
   | Some d =>
       let action := match d with DirX => "cancelx" | DirY => "cancely" end in
       [fire (Some action) None]
   | None => []
   end).

Definition touchMoveHandler (c : Config) (s : Session) (x y : R)
  : Result (Session * list Fired) :=
  if is_null (startPos s) then Ok (s, [])
  else
    let* s0 := at0 (startPos s) in
    let* s1 := at1 (startPos s) in
    let dx := x - s0 in
    let dy := y - s1 in
    let direction' :=
      match direction s with
      | None => calculateDirection c (dx, dy)
      | Some d => Some d
      end in
    Ok (mkSession (startPos s) (Some (x, y)) direction',
        match direction' with
        | Some d =>
            let offset := match d with DirX => dx | DirY => dy end in
            let action := match d with DirX => "movex" | DirY => "movey" end in
            [fire (Some action) (Some offset)]
        | None => []
        end).

(** [w] is [window.innerWidth]. *)
Definition touchEndHandler (c : Config) (w : R) (s : Session)
  : Result (Session * list Fired) :=
  if is_null (lastPos s) || is_null (startPos s) then Ok (touchCancelHandler s)
  else
    let* l0 := at0 (lastPos s) in
    let* s0 := at0 (startPos s) in
    let* l1 := at1 (lastPos s) in
    let* s1 := at1 (startPos s) in
    let dx := l0 - s0 in
    let dy := l1 - s1 in
    let offset :=
      match direction s with
      | Some DirX => dx
      | Some DirY => dy
      | None => 0
      end in
    match direction s with
    | None =>
        let parts := clickParts c in
        let* x := at0 (startPos s) in
        let action :=
          if Req_dec_T parts 2 then
            js_index ["touchleft"; "touchright"]%string (Math.floor (x * 2 / w))
          else if Req_dec_T parts 3 then
            js_index ["touchleft"; "touchmiddle"; "touchright"]%string
                     (Math.floor (x * 3 / w))
          else Some "touch"%string in
        Ok (idle, [fire action None])
    | Some d =>
        let minDistanceArrow :=
          match d with DirX => minDistanceX c | DirY => minDistanceY c end in
        if Rlt_dec (Math.abs offset) minDistanceArrow then
          let action := match d with DirX => "cancelx" | DirY => "cancely" end in
          Ok (idle, [fire (Some action) None])
        else
          let action :=
            match d with
            | DirX => if Rgt_dec dx 0 then "slideright" else "slideleft"
            | DirY => if Rgt_dec dy 0 then "slidedown" else "slideup"
            end in
          Ok (idle, [fire (Some action) None])
    end.

(** The subscription of the four handlers to the normaliser's signals. *)
Definition step (c : Config) (w : R) (s : Session) (sig : Signal)
  : Result (Session * list Fired) :=
  match sig with
  | Start x y => Ok (touchStartHandler x y)
  | Move x y => touchMoveHandler c s x y
  | End => touchEndHandler c w s
  | Cancel => Ok (touchCancelHandler s)
  end.

(** A stream of signals, handled one after the other; the calls of
    [trigger] are collected in order. *)
Fixpoint run (c : Config) (w : R) (s : Session) (sigs : list Signal)
  : Result (Session * list Fired) :=
  match sigs with
  | [] => Ok (s, [])
  | sig :: rest =>
      let* r := step c w s sig in
      let* r' := run c w (fst r) rest in
      Ok (fst r', snd r ++ snd r')
  end.

(** The [move] signals of a list of positions. *)
Definition moves (ms : list Point) : list Signal :=
  map (fun m => Move (fst m) (snd m)) ms.

(** A position is within the gate of [start] when its distance from it
    does not exceed [minDistance]. *)
Definition within (c : Config) (start m : Point) : Prop :=
  Math.hypot (fst m - fst start) (snd m - snd start) <= minDistance c.

Definition move_action (d : Direction) : string :=
  match d with DirX => "movex" | DirY => "movey" end.

Definition cancel_action (d : Direction) : string :=
  match d with DirX => "cancelx" | DirY => "cancely" end.

(** The action names of the twelve registration methods, in the order of
    the class body. *)
Definition action_names : list string :=
  ["touch"; "touchleft"; "touchright"; "touchmiddle"; "movex"; "movey";
   "cancelx"; "cancely"; "slideup"; "slidedown"; "slideleft"; "slideright"]%string.

(** The action vocabulary as the interface description spells it. *)
Definition listed_vocabulary : list string :=
  ["touch"; "touch-left"; "touch-right"; "touch-middle"; "move-x"; "move-y";
   "cancel-x"; "cancel-y"; "slide-up"; "slide-down"; "slide-left";
   "slide-right"]%string.

(** *** The listener registry

    [this.listeners] is a [Map] from action to the array of its listeners.
    A listener is an opaque callback of type [L]; calling it is recorded
    as a [Call] with the list of arguments it is applied to. *)

Inductive Value : Type :=
| Null
| Number (r : R).

Section Listeners.

Context {L : Type}.

Record Call : Type := call {
  callee : L;
  args : list Value
}.

Definition trigger (listeners : gmap (option string) (list L))
           (action : option string) (offset : option R) : list Call :=
  let offset := match offset with Some r => Number r | None => Null end in
  match listeners !! action with
  | None => []
  | Some fs => map (fun listener => call listener [offset]) fs
  end.

Definition addListener (listeners : gmap (option string) (list L))
           (action : option string) (listener : L)
  : gmap (option string) (list L) :=
  let listeners :=
    match listeners !! action with
    | None => <[action := []]> listeners
    | Some _ => listeners
    end in
  <[action := default [] (listeners !! action) ++ [listener]]> listeners.

Definition onTouch ls (l : L) := addListener ls (Some "touch"%string) l.
Definition onTouchLeft ls (l : L) := addListener ls (Some "touchleft"%string) l.
Definition onTouchRight ls (l : L) := addListener ls (Some "touchright"%string) l.
Definition onTouchMiddle ls (l : L) := addListener ls (Some "touchmiddle"%string) l.
Definition onMoveX ls (l : L) := addListener ls (Some "movex"%string) l.
Definition onMoveY ls (l : L) := addListener ls (Some "movey"%string) l.
Definition onCancelX ls (l : L) := addListener ls (Some "cancelx"%string) l.
Definition onCancelY ls (l : L) := addListener ls (Some "cancely"%string) l.
Definition onSlideUp ls (l : L) := addListener ls (Some "slideup"%string) l.
Definition onSlideDown ls (l : L) := addListener ls (Some "slidedown"%string) l.
Definition onSlideLeft ls (l : L) := addListener ls (Some "slideleft"%string) l.
Definition onSlideRight ls (l : L) := addListener ls (Some "slideright"%string) l.

(** The twelve registration methods of the class. *)
Definition registration_methods
  : list (gmap (option string) (list L) -> L -> gmap (option string) (list L)) :=
  [onTouch; onTouchLeft; onTouchRight; onTouchMiddle; onMoveX; onMoveY;
   onCancelX; onCancelY; onSlideUp; onSlideDown; onSlideLeft; onSlideRight].

(** The registry after a sequence of [addListener] calls on a fresh
    instance. *)
Definition registry (regs : list (option string * L))
  : gmap (option string) (list L) :=
  fold_left (fun ls r => addListener ls (fst r) (snd r)) regs ∅.

(** The calls of [trigger] made by a handler, carried out on the
    registry. *)
Definition deliver (listeners : gmap (option string) (list L))
           (fired : list Fired) : list Call :=
  flat_map (fun f => trigger listeners (action f) (offset f)) fired.

End Listeners.

Arguments Call L : clear implicits.

End Gesture.

(** ** [TouchMoveListener] *)

Module Pointer.

(** The closure variables [mouseDown] and [touchStart], and which of the
    instance's DOM listeners are attached: those on the element
    ([mousedown], [touchstart]) and the two groups on [document]. *)
Record State : Type := mkState {
  mouseDown : bool;
  touchStart : bool;
  elementHandlers : bool;
  globalMouseHandlers : bool;
  globalTouchHandlers : bool
}.

(** The state the constructor leaves. *)
Definition init : State := mkState false false true false false.

(** DOM events, with [pageX] and [pageY] of the event or of its first
    touch. *)
Inductive Event : Type :=
| mousedown (pageX pageY : R)
| mouseup
| mouseleave
| mousemove (pageX pageY : R)
| touchstart (pageX pageY : R)
| touchend
| touchcancel
| touchmove (pageX pageY : R).

Definition addGlobalMouseHandlers (s : State) : State :=
  mkState (mouseDown s) (touchStart s) (elementHandlers s) true (globalTouchHandlers s).

Definition removeGlobalMouseHandlers (s : State) : State :=
  mkState (mouseDown s) (touchStart s) (elementHandlers s) false (globalTouchHandlers s).

Definition addGlobalTouchHandlers (s : State) : State :=
  mkState (mouseDown s) (touchStart s) (elementHandlers s) (globalMouseHandlers s) true.

Definition removeGlobalTouchHandlers (s : State) : State :=
  mkState (mouseDown s) (touchStart s) (elementHandlers s) (globalMouseHandlers s) false.

Definition set_mouseDown (b : bool) (s : State) : State :=
  mkState b (touchStart s) (elementHandlers s) (globalMouseHandlers s)
          (globalTouchHandlers s).

Definition set_touchStart (b : bool) (s : State) : State :=
  mkState (mouseDown s) b (elementHandlers s) (globalMouseHandlers s)
          (globalTouchHandlers s).

(** Each handler returns the new state and the signals it passes to
    [triggerCallback]. *)
Definition mouseDownHandler (s : State) (x y : R) : State * list Signal :=
  if touchStart s then (set_touchStart false s, [])
  else (addGlobalMouseHandlers (set_mouseDown true s), [Start x y]).

Definition mouseUpHandler (s : State) : State * list Signal :=
  (removeGlobalMouseHandlers (set_mouseDown false s),
   if mouseDown s then [End] else []).

Definition mouseCancelHandler (s : State) : State * list Signal :=
  (removeGlobalMouseHandlers (set_mouseDown false s),
   if mouseDown s then [End] else []).

Definition mouseMoveHandler (s : State) (x y : R) : State * list Signal :=
  (s, if mouseDown s then [Move x y] else []).

Definition touchStartHandler (s : State) (x y : R) : State * list Signal :=
  (addGlobalTouchHandlers (set_touchStart true s), [Start x y]).

Definition touchEndHandler (s : State) : State * list Signal :=
  (removeGlobalTouchHandlers s, if touchStart s then [End] else []).

Definition touchCancelHandler (s : State) : State * list Signal :=
  (removeGlobalTouchHandlers s, if touchStart s then [Cancel] else []).

Definition touchMoveHandler (s : State) (x y : R) : State * list Signal :=
  (s, if touchStart s then [Move x y] else []).

Definition dispatch (s : State) : State :=
  mkState (mouseDown s) (touchStart s) false false false.

(** An event runs the handler attached for it, if it is attached. *)
Definition receive (s : State) (e : Event) : State * list Signal :=
  match e with
  | mousedown x y => if elementHandlers s then mouseDownHandler s x y else (s, [])
  | touchstart x y => if elementHandlers s then touchStartHandler s x y else (s, [])
  | mouseup => if globalMouseHandlers s then mouseUpHandler s else (s, [])
  | mouseleave => if globalMouseHandlers s then mouseCancelHandler s else (s, [])
  | mousemove x y => if globalMouseHandlers s then mouseMoveHandler s x y else (s, [])
  | touchend => if globalTouchHandlers s then touchEndHandler s else (s, [])
  | touchcancel => if globalTouchHandlers s then touchCancelHandler s else (s, [])
  | touchmove x y => if globalTouchHandlers s then touchMoveHandler s x y else (s, [])
  end.


Fixpoint receive_all (s : State) (es : list Event) : State * list Signal :=
  match es with
  | [] => (s, [])
  | e :: rest =>
      let r := receive s e in
      let r' := receive_all (fst r) rest in
      (fst r', snd r ++ snd r')
  end.

(** The [mousemove] and [touchmove] events of a list of positions. *)
Definition mousemoves (ms : list Point) : list Event :=
  map (fun m => mousemove (fst m) (snd m)) ms.

Definition touchmoves (ms : list Point) : list Event :=
  map (fun m => touchmove (fst m) (snd m)) ms.

(** Counting the [start] signals of a stream, and its [end] and [cancel]
    signals. *)
Definition opens (sig : Signal) : nat :=
  match sig with
  | Start _ _ => 1
  | _ => 0
  end.

Definition closes (sig : Signal) : nat :=
  match sig with
  | End | Cancel => 1
  | _ => 0
  end.

Definition started (sigs : list Signal) : nat := List.list_sum (map opens sigs).

Definition closed (sigs : list Signal) : nat := List.list_sum (map closes sigs).

(** The events of a touch that is already down. *)
Definition touch_followup (e : Event) : Prop :=
  match e with
  | touchmove _ _ | touchend | touchcancel => True
  | _ => False
  end.

(** How many of the two groups of [document] listeners are attached. *)
Definition attached (s : State) : nat :=
  (if globalMouseHandlers s then 1 else 0) + (if globalTouchHandlers s then 1 else 0).

End Pointer.

(** ** [RangeInput]: the closure [setRatio] *)

Module Range.

(** [@typedef {Object} RangeConfig] *)
Record RangeConfig : Type := mkRangeConfig {
  min : R;
  max : R;
  step : R
}.

(** The general formula of the [else] branch. *)
Definition clamped (config : RangeConfig) (ratio : R) : R :=
  Math.min (max config)
    (Math.max (min config)
       (IZR (Math.round ((max config - min config) * ratio / step config))
        * step config + min config)).

(** The value of [pos] that [setRatio] passes to [this.updateValue]. *)
Definition setRatio (config : RangeConfig) (ratio : R) : option R :=
  let pos : option R := None in
  let pos := if Req_dec_T ratio 1 then Some (max config) else pos in
  let pos :=
    if Req_dec_T ratio 0 then Some (min config)
    else Some (clamped config ratio) in
  pos.

(** [mouseMove], subscribed to the [start] and [move] signals: [left] is
    [this.track.getClientRects().item(0).x] and [width] is
    [this.track.clientWidth]. *)
Definition mouseMove (config : RangeConfig) (left width pageX : R) : option R :=
  let clientX := pageX - left in
  let ratio := clientX / width in
  setRatio config (Math.min (Math.max 0 ratio) 1).

(** The options object given to [setConfig] and [normalizeValue]: each
    property is a finite number, or something [Number.isFinite] rejects
    ([None]). *)
Record Options : Type := mkOptions {
  given_min : option R;
  given_max : option R;
  given_step : option R;
  given_value : option R
}.

Definition normalizeConfig (config : Options) : RangeConfig :=
  let min := match given_min config with Some m => m | None => 0 end in
  let max := match given_max config with Some m => m | None => 1 end in
  let '(min, max) := if Rge_dec min max then (0, 1) else (min, max) in
  let step := match given_step config with Some s => s | None => 1 end in
  let step := if Rle_dec step 0 then 1 else step in
  mkRangeConfig min max step.

(** [normalizeValue(config)] reads [config.value] and [this.config]. *)
Definition normalizeValue (this_config : RangeConfig) (value : option R) : R :=
  match value with
  | None => min this_config
  | Some v =>
      if Rle_dec v (min this_config) then min this_config
      else if Rge_dec v (max this_config) then max this_config
      else IZR (Math.round ((v - min this_config) / step this_config))
           * step this_config + min this_config
  end.

(** [setConfig] leaves [this.config] and [this.value]. *)
Definition setConfig (config : Options) : RangeConfig * R :=
  let this_config := normalizeConfig config in
  (this_config, normalizeValue this_config (given_value config)).

(** The fields of the instance that [updateValue] and [keyboardHandler]
    work on.  [value] and [updatePendingValue] hold a number or [null];
    [repeatCount] is a count, or [None] while it is [undefined] or [NaN];
    [awaiting] counts the calls of [updateValue] suspended at their
    [await]. *)
Record Slider : Type := mkSlider {
  config : RangeConfig;
  value : option R;
  updatePendingValue : option R;
  awaiting : nat;
  repeatCount : option nat
}.

(** [a === b] on values that are numbers or [null]. *)
Definition strict_eq (a b : option R) : bool :=
  match a, b with
  | Some x, Some y => if Req_dec_T x y then true else false
  | None, None => true
  | _, _ => false
  end.

(** [updateValue] up to its [await]. *)
Definition updateValue (s : Slider) (newValue : option R) : Slider :=
  if strict_eq (value s) newValue then s
  else
    match updatePendingValue s with
    | Some _ =>
        mkSlider (config s) (value s) newValue (awaiting s) (repeatCount s)
    | None =>
        mkSlider (config s) (value s) newValue (S (awaiting s)) (repeatCount s)
    end.

(** Of a series of requested values, those that differ from the value
    [v0] the instance holds. *)
Definition fresh_requests (v0 : R) (vs : list R) : list R :=
  List.filter (fun v => if Req_dec_T v0 v then false else true) vs.

(** [updateValue] after its [await]: the new state, and the value given to
    the [onValueChange] callbacks and to [renderValue]. *)
Definition resume (s : Slider) : Slider * list (option R) :=
  let value := updatePendingValue s in
  (mkSlider (config s) value None (awaiting s) (repeatCount s), [value]).

Fixpoint resume_all (n : nat) (s : Slider) : Slider * list (option R) :=
  match n with
  | O => (s, [])
  | S n' =>
      let r := resume s in
      let r' := resume_all n' (fst r) in
      (fst r', snd r ++ snd r')
  end.

(** An animation frame: every suspended call resumes, in order. *)
Definition frame (s : Slider) : Slider * list (option R) :=
  resume_all (awaiting s)
    (mkSlider (config s) (value s) (updatePendingValue s) 0 (repeatCount s)).

(** The table of [keyboardHandler], with [|| 0] for the other codes. *)
Definition key_ratio (code : string) : R :=
  if String.eqb code "ArrowUp" then 1
  else if String.eqb code "ArrowDown" then -1
  else if String.eqb code "ArrowRight" then 1
  else if String.eqb code "ArrowLeft" then -1
  else if String.eqb code "PageUp" then 10
  else if String.eqb code "PageDown" then -10
  else 0.

(** The constant [move] of [keyboardHandler]; [None] is [NaN]. *)
Definition keyboard_move (this_config : RangeConfig) (repeatCount : option nat)
           (code : string) : option R :=
  let base := option_map (fun n => (12 / 10) ^ n) repeatCount in
  let ratio := key_ratio code in
  let total := (max this_config - min this_config) / step this_config in
  option_map (fun base => Math.min base (total / 50) * ratio * step this_config) base.

Definition keyboardHandler (s : Slider) (repeat : bool) (code : string) : Slider :=
  let repeatCount := if negb repeat then Some O else option_map S (repeatCount s) in
  let s := mkSlider (config s) (value s) (updatePendingValue s) (awaiting s)
                    repeatCount in
  let ratio := key_ratio code in
  if Req_dec_T ratio 0 then s
  else
    let move := keyboard_move (config s) repeatCount code in
    let value :=
      option_map (fun move => match value s with Some v => v | None => 0 end + move)
                 move in
    let newValue := normalizeValue (config s) value in
    updateValue s (Some newValue).

End Range.

(** ** The classifier on top of its normaliser

    The constructor of [TouchGestureListener] creates a [TouchMoveListener]
    and subscribes its four handlers to the four signals. *)

Module Wiring.

Definition recognise (c : Gesture.Config) (w : R) (es : list Pointer.Event)
  : Result (Gesture.Session * list Gesture.Fired) :=
  Gesture.run c w Gesture.idle (snd (Pointer.receive_all Pointer.init es)).

End Wiring.

(** * Properties *)

Import Gesture.

(** Case analysis on the comparisons of reals in the goal. *)
Ltac real_cases :=
  repeat match goal with
         | |- context [Rcase_abs ?a] => destruct (Rcase_abs a)
         | |- context [Rlt_dec ?a ?b] => destruct (Rlt_dec a b)
         | |- context [Rgt_dec ?a ?b] => destruct (Rgt_dec a b)
         | |- context [Req_dec_T ?a ?b] => destruct (Req_dec_T a b)
         end;
  try reflexivity; try (exfalso; lra).

(** ** Facts about the builtins *)

Section MathFacts.

Lemma PI_pos : 0 < Math.PI.
Proof. exact PI_RGT_0. Qed.

Lemma atan_pos (t : R) : 0 < t -> 0 < atan t.
Proof. intros H. rewrite <- atan_0. now apply atan_increasing. Qed.

Lemma atan_neg (t : R) : t < 0 -> atan t < 0.
Proof. intros H. rewrite <- atan_0. now apply atan_increasing. Qed.

Lemma div_pos_iff (y x : R) : 0 < x -> (0 < y / x <-> 0 < y).
Proof.
  intros Hx. split; intros H.
  - replace y with (y / x * x) by (field; lra). nra.
  - apply Rdiv_lt_0_compat; assumption.
Qed.

(** The sign of the angle: positive in the upper half plane and on the
    negative x axis. *)
Lemma atan2_pos_iff (y x : R) :
  Math.atan2 y x > 0 <-> (0 < y \/ (y = 0 /\ x < 0)).
Proof.
  unfold Math.atan2, Math.PI.
  pose proof PI_RGT_0 as HPI.
  destruct (Rlt_dec 0 x) as [Hx | Hx].
  - split.
    + intros H. left. apply (div_pos_iff y x Hx).
      destruct (Rlt_dec 0 (y / x)) as [|Hn]; [assumption|].
      exfalso. destruct (Req_dec (y / x) 0) as [E | E].
      * rewrite E, atan_0 in H. lra.
      * assert (y / x < 0) by lra. pose proof (atan_neg _ H0). lra.
    + intros [H | [_ H]]; [| lra].
      apply Rlt_gt, atan_pos. now apply div_pos_iff.
  - destruct (Rlt_dec x 0) as [Hx' | Hx'].
    + pose proof (atan_bound (y / x)) as [Hlo Hhi].
      destruct (Rle_dec 0 y) as [Hy | Hy].
      * split; [intros _; lra | intros _; lra].
      * split; [intros H; lra | intros [H | [H _]]; lra].
    + destruct (Rlt_dec 0 y) as [Hy | Hy].
      * split; [intros _; now left | intros _; lra].
      * destruct (Rlt_dec y 0) as [Hy' | Hy'].
        -- split; [intros H; lra | intros [H | [H H']]; lra].
        -- split; [intros H; lra | intros [H | [H H']]; lra].
Qed.

Lemma atan2_zero_y (x : R) :
  Math.atan2 0 x = if Rlt_dec x 0 then Math.PI else 0.
Proof.
  unfold Math.atan2.
  destruct (Rlt_dec 0 x) as [Hx | Hx].
  - destruct (Rlt_dec x 0); [lra |].
    unfold Rdiv. now rewrite Rmult_0_l, atan_0.
  - destruct (Rlt_dec x 0) as [Hx' | Hx'].
    + destruct (Rle_dec 0 0); [| lra].
      unfold Rdiv. rewrite Rmult_0_l, atan_0. lra.
    + destruct (Rlt_dec 0 0); [lra | reflexivity].
Qed.

(** In the octant 0 <= y <= x, 0 < x the angle is [atan (y / x)], between
    0 and PI / 4. *)
Lemma atan2_first_octant (y x : R) :
  0 < x -> 0 <= y <= x ->
  Math.atan2 y x = atan (y / x) /\ 0 <= atan (y / x) <= Math.PI / 4.
Proof.
  intros Hx [Hy0 Hyx]. unfold Math.atan2, Math.PI.
  destruct (Rlt_dec 0 x); [| lra]. split; [reflexivity |].
  assert (H0 : 0 <= y / x) by (apply Rle_mult_inv_pos; assumption).
  assert (H1 : y / x <= 1).
  { apply (Rmult_le_reg_r x); [assumption |].
    replace (y / x * x) with y by (field; lra). lra. }
  split.
  - destruct H0 as [H0 | H0].
    + left. now apply atan_pos.
    + rewrite <- H0, atan_0. lra.
  - rewrite <- atan_1. destruct H1 as [H1 | H1].
    + left. now apply atan_increasing.
    + rewrite H1. lra.
Qed.

Lemma hypot_gt (x y m : R) : 0 <= m -> m * m < x * x + y * y -> Math.hypot x y > m.
Proof.
  intros Hm H. unfold Math.hypot.
  rewrite <- (sqrt_square m Hm). apply Rlt_gt, sqrt_lt_1; nra.
Qed.

Lemma hypot_le (x y m : R) : 0 <= m -> x * x + y * y <= m * m -> Math.hypot x y <= m.
Proof.
  intros Hm H. unfold Math.hypot.
  rewrite <- (sqrt_square m Hm). apply sqrt_le_1; nra.
Qed.

Lemma floor_eq (z : Z) (x : R) : IZR z <= x < IZR z + 1 -> Math.floor x = z.
Proof. apply Zfloor_eq. Qed.

End MathFacts.

(** ** The classifier, one signal at a time *)

Section Handlers.

Variable c : Config.

Lemma calculateDirection_None (dx dy : R) :
  calculateDirection c (dx, dy) = None <-> Math.hypot dx dy <= minDistance c.
Proof.
  unfold calculateDirection.
  destruct (Rgt_dec (Math.hypot dx dy) (minDistance c)) as [H | H].
  - split; [| intros; lra].
    destruct (Rlt_dec _ _); discriminate.
  - split; [intros _; lra | reflexivity].
Qed.

Lemma calculateDirection_angle (dx dy : R) :
  Math.hypot dx dy > minDistance c ->
  calculateDirection c (dx, dy) =
    Some (if Rlt_dec (ray_deviation dx dy) (yRadian c / 2) then DirY else DirX).
Proof.
  intros Hd. unfold calculateDirection.
  destruct (Rgt_dec (Math.hypot dx dy) (minDistance c)) as [_ | H]; [| contradiction].
  assert (E : Math.abs (Math.atan2 dy dx
               - (if Rgt_dec (Math.atan2 dy dx) 0 then 1 else -1) * Math.PI / 2)
              = ray_deviation dx dy).
  { unfold ray_deviation.
    pose proof (atan2_pos_iff dy dx) as Hs.
    pose proof PI_pos as HPI.
    destruct (Rlt_dec 0 dy) as [Hy | Hy].
    - destruct (Rgt_dec (Math.atan2 dy dx) 0) as [_ | Hn].
      + f_equal. lra.
      + exfalso. apply Hn, Hs. now left.
    - destruct (Rlt_dec dy 0) as [Hy' | Hy'].
      + destruct (Rgt_dec (Math.atan2 dy dx) 0) as [Hp | _].
        * exfalso. apply Hs in Hp. lra.
        * f_equal. lra.
      + assert (dy = 0) by lra. subst dy.
        rewrite atan2_zero_y. unfold Math.abs.
        destruct (Rlt_dec dx 0).
        * destruct (Rgt_dec Math.PI 0); [| lra].
          replace (Math.PI - 1 * Math.PI / 2) with (Math.PI / 2) by lra.
          apply Rabs_pos_eq. lra.
        * destruct (Rgt_dec 0 0); [lra |].
          replace (0 - -1 * Math.PI / 2) with (Math.PI / 2) by lra.
          apply Rabs_pos_eq. lra. }
  rewrite E. destruct (Rlt_dec _ _); reflexivity.
Qed.

Lemma touchMoveHandler_active (s : Session) (x y x0 y0 : R) :
  startPos s = Some (x0, y0) ->
  touchMoveHandler c s x y =
    let direction' :=
      match direction s with
      | None => calculateDirection c (x - x0, y - y0)
      | Some d => Some d
      end in
    Ok (mkSession (Some (x0, y0)) (Some (x, y)) direction',
        match direction' with
        | Some DirX => [fire (Some "movex"%string) (Some (x - x0))]
        | Some DirY => [fire (Some "movey"%string) (Some (y - y0))]
        | None => []
        end).
Proof.
  intros Hs. unfold touchMoveHandler. rewrite Hs. cbn -[calculateDirection].
  destruct (direction s) as [[|]|]; try reflexivity.
  destruct (calculateDirection c (x - x0, y - y0)) as [[|]|]; reflexivity.
Qed.

Lemma touchMoveHandler_idle (s : Session) (x y : R) :
  startPos s = None -> touchMoveHandler c s x y = Ok (s, []).
Proof. intros Hs. unfold touchMoveHandler. now rewrite Hs. Qed.

End Handlers.

(** C4: once the displacement exceeds [minDistance], the axis is vertical
    exactly when the angle [atan2(dy, dx)] deviates by strictly less than
    [yRadian / 2] from the vertical ray on the side of [dy] (+PI/2 for
    [dy > 0], -PI/2 for [dy < 0]), and horizontal otherwise; a deviation of
    exactly [yRadian / 2] gives the horizontal axis. *)
Theorem axis_by_angular_window (c : Config) (dx dy : R) :
  Math.hypot dx dy > minDistance c ->
  calculateDirection c (dx, dy) =
    Some (if Rlt_dec (ray_deviation dx dy) (yRadian c / 2) then DirY else DirX)
  /\ (ray_deviation dx dy < yRadian c / 2 <-> calculateDirection c (dx, dy) = Some DirY)
  /\ (ray_deviation dx dy = yRadian c / 2 -> calculateDirection c (dx, dy) = Some DirX).
Proof.
  intros Hd. pose proof (calculateDirection_angle c dx dy Hd) as E.
  split; [exact E |]. rewrite E. split.
  - destruct (Rlt_dec _ _); split; intros H; try reflexivity; try lra; discriminate.
  - intros Hb. destruct (Rlt_dec _ _); [lra | reflexivity].
Qed.

Section DefaultConfig.

Lemma minDistance_defaults : minDistance defaults = 20.
Proof. unfold minDistance, defaults, Math.min. cbn. apply Rmin_left. lra. Qed.

Lemma atan2_diagonal : Math.atan2 15 15 = Math.PI / 4.
Proof.
  destruct (atan2_first_octant 15 15) as [E _]; [lra | lra |].
  rewrite E. replace (15 / 15) with 1 by lra. apply atan_1.
Qed.

Lemma hypot_diagonal : Math.hypot 15 15 > 20.
Proof. apply hypot_gt; lra. Qed.

Lemma ray_deviation_diagonal : ray_deviation 15 15 = Math.PI / 4.
Proof.
  unfold ray_deviation. destruct (Rlt_dec 0 15); [| lra].
  rewrite atan2_diagonal. unfold Math.abs.
  pose proof PI_pos.
  replace (Math.PI / 4 - Math.PI / 2) with (- (Math.PI / 4)) by lra.
  rewrite Rabs_Ropp. apply Rabs_pos_eq. lra.
Qed.

End DefaultConfig.

(** With the default window of PI / 2 the diagonal (15, 15) lies exactly on
    the boundary and is classified horizontal. *)
Lemma axis_by_angular_window_witness :
  calculateDirection defaults (15, 15) = Some DirX.
Proof.
  apply (axis_by_angular_window defaults 15 15).
  - rewrite minDistance_defaults. exact hypot_diagonal.
  - rewrite ray_deviation_diagonal. unfold defaults. cbn. lra.
Defined.



(** ** Sessions: a [start] followed by [move]s *)

Section Sessions.

Variables (c : Config) (w : R).

Lemma last_cons {A : Type} (a d : A) (l : list A) :
  List.last (a :: l) d = List.last l a.
Proof.
  revert a d. induction l as [| b l IH]; intros a d; [reflexivity |].
  change (List.last (a :: b :: l) d) with (List.last (b :: l) d).
  now rewrite !IH.
Qed.

Lemma run_cons (s : Session) (sig : Signal) (rest : list Signal) :
  run c w s (sig :: rest) =
    let* r := step c w s sig in
    let* r' := run c w (fst r) rest in
    Ok (fst r', snd r ++ snd r').
Proof. reflexivity. Qed.

Lemma run_app (sigs1 sigs2 : list Signal) :
  forall s s1 tr1,
    run c w s sigs1 = Ok (s1, tr1) ->
    run c w s (sigs1 ++ sigs2) =
      let* r := run c w s1 sigs2 in Ok (fst r, tr1 ++ snd r).
Proof.
  induction sigs1 as [| sig sigs1 IH]; intros s s1 tr1 H.
  - cbn in H. injection H as <- <-. cbn.
    destruct (run c w s sigs2) as [[s2 tr2] |]; reflexivity.
  - rewrite <- app_comm_cons, run_cons. rewrite run_cons in H.
    destruct (step c w s sig) as [[sa tra] |]; [| discriminate].
    cbn [bind fst snd] in *.
    destruct (run c w sa sigs1) as [[sb trb] |] eqn:E; [| discriminate].
    cbn [bind fst snd] in H. injection H as <- <-.
    rewrite (IH sa sb trb E).
    destruct (run c w sb sigs2) as [[s2 tr2] |]; cbn [bind fst snd]; [| reflexivity].
    now rewrite app_assoc.
Qed.

(** What a run of [move]s preserves and decides, from any session that
    has a start position [p]. *)
Lemma run_moves (p : Point) :
  forall (ms : list Point) (s : Session) (q : Point),
    startPos s = Some p -> lastPos s = Some q ->
    exists s' tr,
      run c w s (moves ms) = Ok (s', tr) /\
      startPos s' = Some p /\
      lastPos s' = Some (List.last ms q) /\
      (forall d, direction s = Some d -> direction s' = Some d) /\
      (direction s = None -> (direction s' = None <-> Forall (within c p) ms)) /\
      (forall d, direction s' = Some d ->
                 Forall (fun f => action f = Some (move_action d)) tr) /\
      (direction s' = None -> tr = []).
Proof.
  destruct p as [x0 y0].
  induction ms as [| [x y] ms IH]; intros s q Hs Hl.
  - exists s, []. cbn. repeat split; auto.
  - change (moves ((x, y) :: ms)) with (Move x y :: moves ms). rewrite run_cons.
    cbn [step fst snd].
    rewrite (touchMoveHandler_active c s x y x0 y0 Hs). cbv zeta.
    set (d1 := match direction s with
               | Some d => Some d
               | None => calculateDirection c (x - x0, y - y0)
               end).
    set (tr1 := match d1 with
                | Some DirX => [fire (Some "movex"%string) (Some (x - x0))]
                | Some DirY => [fire (Some "movey"%string) (Some (y - y0))]
                | None => []
                end).
    destruct (IH (mkSession (Some (x0, y0)) (Some (x, y)) d1) (x, y)
                eq_refl eq_refl)
      as (s' & tr2 & Hrun & Hs' & Hl' & Hkeep & Hgate & Hmv & Hnil).
    cbn [direction] in Hkeep, Hgate.
    exists s', (tr1 ++ tr2). cbn [bind fst snd]. rewrite Hrun. cbn [bind fst snd].
    split; [reflexivity |]. split; [exact Hs' |].
    split; [now rewrite last_cons |].
    assert (Hd1 : forall d, d1 = Some d -> direction s' = Some d) by exact Hkeep.
    split; [| split; [| split]].
    + intros d Hd. apply Hd1. unfold d1. now rewrite Hd.
    + intros Hd. assert (E1 : d1 = calculateDirection c (x - x0, y - y0)).
      { unfold d1. now rewrite Hd. }
      split.
      * intros Hn. destruct d1 as [d |] eqn:Ed.
        -- rewrite (Hd1 d eq_refl) in Hn. discriminate.
        -- constructor.
           ++ unfold within. cbn [fst snd].
              apply calculateDirection_None. now symmetry.
           ++ now apply Hgate.
      * intros HF. inversion HF as [| ? ? Hm HF']; subst.
        unfold within in Hm. cbn [fst snd] in Hm.
        apply calculateDirection_None in Hm.
        rewrite Hm in E1. now apply Hgate.
    + intros d Hd. apply Forall_app. split; [| now apply Hmv].
      unfold tr1. destruct d1 as [d' |] eqn:Ed; [| constructor].
      rewrite (Hd1 d' eq_refl) in Hd. injection Hd as <-.
      destruct d'; repeat constructor.
    + intros Hn. rewrite (Hnil Hn), app_nil_r. unfold tr1.
      destruct d1 as [d |] eqn:Ed; [| reflexivity].
      rewrite (Hd1 d eq_refl) in Hn. discriminate.
Qed.

(** The same from the [start] signal, which resets whatever came before. *)
Lemma run_session (s : Session) (x0 y0 : R) (ms : list Point) :
  exists s' tr,
    run c w s (Start x0 y0 :: moves ms) = Ok (s', tr) /\
    startPos s' = Some (x0, y0) /\
    lastPos s' = Some (List.last ms (x0, y0)) /\
    (direction s' = None <-> Forall (within c (x0, y0)) ms) /\
    (forall d, direction s' = Some d ->
               Forall (fun f => action f = Some (move_action d)) tr) /\
    (direction s' = None -> tr = []).
Proof.
  rewrite run_cons. cbn [step touchStartHandler bind fst snd].
  destruct (run_moves (x0, y0) ms
              (mkSession (Some (x0, y0)) (Some (x0, y0)) None) (x0, y0)
              eq_refl eq_refl)
    as (s' & tr & Hrun & Hs' & Hl' & _ & Hgate & Hmv & Hnil).
  exists s', tr. rewrite Hrun. cbn [bind fst snd app].
  repeat split; auto; now apply Hgate.
Qed.

End Sessions.

(** ** The end of a session *)

Section EndOfSession.

Variables (c : Config) (w : R).

Lemma touchEndHandler_locked (s : Session) (x0 y0 x1 y1 : R) (d : Direction) :
  startPos s = Some (x0, y0) -> lastPos s = Some (x1, y1) ->
  direction s = Some d ->
  touchEndHandler c w s =
    Ok (idle,
        [fire (Some
                 match d with
                 | DirX =>
                     if Rlt_dec (Rabs (x1 - x0)) (minDistanceX c) then "cancelx"
                     else if Rgt_dec (x1 - x0) 0 then "slideright" else "slideleft"
                 | DirY =>
                     if Rlt_dec (Rabs (y1 - y0)) (minDistanceY c) then "cancely"
                     else if Rgt_dec (y1 - y0) 0 then "slidedown" else "slideup"
                 end%string) None]).
Proof.
  intros Hs Hl Hd. unfold touchEndHandler. rewrite Hs, Hl, Hd.
  cbn [is_null orb at0 at1 bind]. unfold Math.abs.
  destruct d.
  - destruct (Rlt_dec (Rabs (x1 - x0)) (minDistanceX c)); [reflexivity |].
    destruct (Rgt_dec (x1 - x0) 0); reflexivity.
  - destruct (Rlt_dec (Rabs (y1 - y0)) (minDistanceY c)); [reflexivity |].
    destruct (Rgt_dec (y1 - y0) 0); reflexivity.
Qed.

Lemma touchEndHandler_tap (s : Session) (x0 y0 : R) (q : Point) :
  startPos s = Some (x0, y0) -> lastPos s = Some q -> direction s = None ->
  touchEndHandler c w s =
    Ok (idle,
        [fire (if Req_dec_T (clickParts c) 2 then
                 js_index ["touchleft"; "touchright"]%string
                          (Math.floor (x0 * 2 / w))
               else if Req_dec_T (clickParts c) 3 then
                 js_index ["touchleft"; "touchmiddle"; "touchright"]%string
                          (Math.floor (x0 * 3 / w))
               else Some "touch"%string) None]).
Proof.
  intros Hs Hl Hd. unfold touchEndHandler. rewrite Hs, Hl, Hd.
  destruct q as [x1 y1]. reflexivity.
Qed.

Lemma touchEndHandler_unset (s : Session) :
  startPos s = None \/ lastPos s = None ->
  touchEndHandler c w s = Ok (touchCancelHandler s).
Proof.
  intros [H | H]; unfold touchEndHandler; rewrite H.
  - now rewrite orb_true_r.
  - reflexivity.
Qed.

Lemma touchMoveHandler_keeps_direction (s s' : Session) (x y : R)
      (fired : list Fired) (d : Direction) :
  touchMoveHandler c s x y = Ok (s', fired) ->
  direction s = Some d -> direction s' = Some d.
Proof.
  intros H Hd. destruct (startPos s) as [[x0 y0] |] eqn:Hs.
  - rewrite (touchMoveHandler_active c s x y x0 y0 Hs), Hd in H.
    cbv zeta in H. injection H as <- _. reflexivity.
  - rewrite (touchMoveHandler_idle c s x y Hs) in H.
    injection H as <- _. exact Hd.
Qed.

Lemma run_moves_keep_direction (d : Direction) :
  forall (ms : list Point) (s s' : Session) (tr : list Fired),
    run c w s (moves ms) = Ok (s', tr) ->
    direction s = Some d -> direction s' = Some d.
Proof.
  induction ms as [| [x y] ms IH]; intros s s' tr H Hd.
  - cbn in H. injection H as <- _. exact Hd.
  - change (moves ((x, y) :: ms)) with (Move x y :: moves ms) in H.
    rewrite run_cons in H. cbn [step] in H.
    destruct (touchMoveHandler c s x y) as [[s1 tr1] |] eqn:E; [| discriminate].
    cbn [bind fst snd] in H.
    destruct (run c w s1 (moves ms)) as [[s2 tr2] |] eqn:E2; [| discriminate].
    cbn [bind fst snd] in H. injection H as <- _.
    apply (IH s1 s2 tr2 E2).
    exact (touchMoveHandler_keeps_direction s s1 x y tr1 d E Hd).
Qed.

(** No handler throws: every read of [startPos] and [lastPos] is behind
    its guard. *)
Lemma step_returns (s : Session) (sig : Signal) :
  exists r, step c w s sig = Ok r.
Proof.
  destruct sig as [x y | x y | |]; cbn [step]; try (eexists; reflexivity).
  - destruct (startPos s) as [[x0 y0] |] eqn:Hs.
    + rewrite (touchMoveHandler_active c s x y x0 y0 Hs). eexists; reflexivity.
    + rewrite (touchMoveHandler_idle c s x y Hs). eexists; reflexivity.
  - destruct (startPos s) as [[x0 y0] |] eqn:Hs;
      [destruct (lastPos s) as [[x1 y1] |] eqn:Hl |].
    + destruct (direction s) as [d |] eqn:Hd.
      * rewrite (touchEndHandler_locked s x0 y0 x1 y1 d Hs Hl Hd).
        eexists; reflexivity.
      * rewrite (touchEndHandler_tap s x0 y0 (x1, y1) Hs Hl Hd).
        eexists; reflexivity.
    + rewrite touchEndHandler_unset by now right. eexists; reflexivity.
    + rewrite touchEndHandler_unset by now left. eexists; reflexivity.
Qed.

Lemma run_returns (sigs : list Signal) :
  forall s, exists r, run c w s sigs = Ok r.
Proof.
  induction sigs as [| sig sigs IH]; intros s.
  - eexists; reflexivity.
  - rewrite run_cons. destruct (step_returns s sig) as [r ->].
    cbn [bind]. destruct (IH (fst r)) as [r' ->]. eexists; reflexivity.
Qed.

End EndOfSession.

Section DefaultSessions.

Variable w : R.

Lemma calculateDirection_diagonal :
  calculateDirection defaults (15 - 0, 15 - 0) = Some DirX.
Proof.
  replace (15 - 0) with 15 by lra.
  rewrite calculateDirection_angle
    by (rewrite minDistance_defaults; exact hypot_diagonal).
  rewrite ray_deviation_diagonal. unfold defaults. cbn [yRadian].
  destruct (Rlt_dec _ _); [lra | reflexivity].
Qed.

(** A drag along the diagonal to (15, 15) passes the gate of 20 and locks
    the horizontal axis, but its 15 along x is short of [minDistanceX]. *)
Lemma run_short_diagonal :
  run defaults w idle [Start 0 0; Move 15 15; End] =
    Ok (idle, [fire (Some "movex"%string) (Some (15 - 0));
               fire (Some "cancelx"%string) None]).
Proof.
  rewrite run_cons. cbn [step touchStartHandler bind fst snd].
  rewrite run_cons. cbn [step].
  rewrite (touchMoveHandler_active defaults
             (mkSession (Some (0, 0)) (Some (0, 0)) None) 15 15 0 0 eq_refl).
  cbn [direction]. rewrite calculateDirection_diagonal.
  cbn [bind fst snd]. rewrite run_cons. cbn [step].
  rewrite (touchEndHandler_locked defaults w
             (mkSession (Some (0, 0)) (Some (15, 15)) (Some DirX))
             0 0 15 15 DirX eq_refl eq_refl eq_refl).
  cbn [bind fst snd run app]. unfold defaults. cbn [minDistanceX].
  destruct (Rlt_dec (Rabs (15 - 0)) 20) as [_ | H]; [reflexivity |].
  exfalso. apply H. rewrite Rabs_pos_eq; lra.
Qed.

End DefaultSessions.

(** C3: within a session the axis is unlocked exactly as long as no move
    has taken the pointer further than [min(minDistanceX, minDistanceY)]
    from the start position (the per-axis thresholds play no part in
    locking); a locked axis is kept by every later move; and a short
    diagonal drag locks an axis and still ends in a cancel. *)
Theorem axis_locks_past_gate_and_stays (c : Config) (w : R) :
  (forall s x0 y0 ms,
      exists s' tr,
        run c w s (Start x0 y0 :: moves ms) = Ok (s', tr) /\
        (direction s' = None <->
         Forall (fun m => Math.hypot (fst m - x0) (snd m - y0)
                          <= Math.min (minDistanceX c) (minDistanceY c)) ms)) /\
  (forall s d ms,
      direction s = Some d ->
      exists s' tr, run c w s (moves ms) = Ok (s', tr) /\ direction s' = Some d) /\
  run defaults w idle [Start 0 0; Move 15 15; End] =
    Ok (idle, [fire (Some "movex"%string) (Some (15 - 0));
               fire (Some "cancelx"%string) None]).
Proof.
  split; [| split].
  - intros s x0 y0 ms.
    destruct (run_session c w s x0 y0 ms) as (s' & tr & Hrun & _ & _ & Hgate & _).
    exists s', tr. split; [exact Hrun | exact Hgate].
  - intros s d ms Hd.
    destruct (run_returns c w (moves ms) s) as [[s' tr] Hrun].
    exists s', tr. split; [exact Hrun |].
    exact (run_moves_keep_direction c w d ms s s' tr Hrun Hd).
  - apply run_short_diagonal.
Qed.

(** C3 on a session already locked to the horizontal axis: a later move
    straight down leaves the axis horizontal. *)
Lemma axis_locks_past_gate_and_stays_witness :
  direction (mkSession (Some (0, 0)) (Some (15, 15)) (Some DirX)) = Some DirX /\
  exists s' tr,
    run defaults 300 (mkSession (Some (0, 0)) (Some (15, 15)) (Some DirX))
        (moves [(3, 40)]) = Ok (s', tr)
    /\ direction s' = Some DirX.
Proof.
  split; [reflexivity |].
  apply (proj1 (proj2 (axis_locks_past_gate_and_stays defaults 300))).
  reflexivity.
Defined.

Section WholeSessions.

Variables (c : Config) (w : R).

Lemma run_end (s : Session) :
  run c w s [End] =
    let* r := touchEndHandler c w s in Ok (fst r, snd r).
Proof.
  rewrite run_cons. cbn [step].
  destruct (touchEndHandler c w s) as [[s1 tr1] |]; cbn [bind fst snd run];
    [| reflexivity].
  now rewrite app_nil_r.
Qed.

(** A session that ends: the trace of its moves followed by what
    [touchEndHandler] fires. *)
Lemma run_session_end (s s' : Session) (x0 y0 : R) (ms : list Point)
      (tr fired : list Fired) :
  run c w s (Start x0 y0 :: moves ms) = Ok (s', tr) ->
  touchEndHandler c w s' = Ok (idle, fired) ->
  run c w s (Start x0 y0 :: moves ms ++ [End]) = Ok (idle, tr ++ fired).
Proof.
  intros Hrun Hend. rewrite app_comm_cons.
  rewrite (run_app c w _ [End] s s' tr Hrun), run_end, Hend.
  reflexivity.
Qed.

Lemma floor_zone (r : R) (n : Z) :
  0 <= r < IZR n -> (0 <= Math.floor r < n)%Z.
Proof.
  intros [H0 Hn]. unfold Math.floor.
  pose proof (Zfloor_bound r) as [Hlo Hhi].
  split.
  - apply Zfloor_lub. exact H0.
  - apply lt_IZR. lra.
Qed.

Lemma js_index_in_range {A : Type} (arr : list A) (k : Z) :
  (0 <= k < Z.of_nat (length arr))%Z ->
  exists a, js_index arr k = Some a /\ nth_error arr (Z.to_nat k) = Some a.
Proof.
  intros [H0 Hk]. unfold js_index.
  destruct (Z.ltb_spec k 0) as [H | _]; [lia |].
  destruct (nth_error arr (Z.to_nat k)) as [a |] eqn:E.
  - exists a. now split.
  - apply nth_error_None in E. lia.
Qed.

Lemma zone_ratio (x0 n : R) :
  0 < n -> 0 <= x0 < w -> 0 <= x0 * n / w < n.
Proof.
  intros Hn [H0 Hw]. assert (Hpos : 0 < w) by lra.
  assert (Hq : 0 <= x0 / w < 1).
  { split.
    - apply Rle_mult_inv_pos; assumption.
    - apply (Rmult_lt_reg_r w); [assumption |].
      replace (x0 / w * w) with x0 by (field; lra). lra. }
  replace (x0 * n / w) with (x0 / w * n) by (field; lra).
  nra.
Qed.

End WholeSessions.

(** C1, with the range of the start made explicit: a session in which no
    move passes [min(minDistanceX, minDistanceY)] calls [trigger] exactly
    once, at its end, and with no offset.  With [clickParts] 2 or 3 and
    [0 <= x0 < w] the action is the entry of [touchleft, touchright] or of
    [touchleft, touchmiddle, touchright] at index
    [floor(x0 * clickParts / w)]; with any other [clickParts] it is [touch],
    wherever the start is. *)
Theorem tap_fires_zone_action (c : Config) (w : R) (s : Session) (x0 y0 : R)
        (ms : list Point) :
  Forall (fun m => Math.hypot (fst m - x0) (snd m - y0)
                   <= Math.min (minDistanceX c) (minDistanceY c)) ms ->
  exists a,
    run c w s (Start x0 y0 :: moves ms ++ [End]) = Ok (idle, [fire a None]) /\
    (clickParts c = 2 -> 0 <= x0 < w ->
     exists name,
       a = Some name /\
       nth_error ["touchleft"; "touchright"]%string
                 (Z.to_nat (Math.floor (x0 * clickParts c / w))) = Some name) /\
    (clickParts c = 3 -> 0 <= x0 < w ->
     exists name,
       a = Some name /\
       nth_error ["touchleft"; "touchmiddle"; "touchright"]%string
                 (Z.to_nat (Math.floor (x0 * clickParts c / w))) = Some name) /\
    (clickParts c <> 2 -> clickParts c <> 3 -> a = Some "touch"%string).
Proof.
  intros Hin.
  destruct (run_session c w s x0 y0 ms)
    as (s' & tr & Hrun & Hs' & Hl' & Hgate & _ & Hnil).
  assert (Hd : direction s' = None) by (apply Hgate; exact Hin).
  rewrite (Hnil Hd) in Hrun.
  pose proof (touchEndHandler_tap c w s' x0 y0 _ Hs' Hl' Hd) as Hend.
  match type of Hend with _ = Ok (_, [fire ?a None]) => exists a end.
  split; [exact (run_session_end c w s s' x0 y0 ms [] _ Hrun Hend) |].
  clear Hend.
  destruct (Req_dec_T (clickParts c) 2) as [E2 | N2];
    [| destruct (Req_dec_T (clickParts c) 3) as [E3 | N3]].
  - split; [| split]; [| intros E; lra | intros N; contradiction].
    intros _ Hx.
    destruct (js_index_in_range ["touchleft"; "touchright"]%string
                (Math.floor (x0 * 2 / w))) as (name & Ha & Hn).
    { apply (floor_zone (x0 * 2 / w) 2). apply zone_ratio; [lra | exact Hx]. }
    exists name. rewrite E2. now split.
  - split; [| split]; [intros E; contradiction | | intros _ N; contradiction].
    intros _ Hx.
    destruct (js_index_in_range ["touchleft"; "touchmiddle"; "touchright"]%string
                (Math.floor (x0 * 3 / w))) as (name & Ha & Hn).
    { apply (floor_zone (x0 * 3 / w) 3). apply zone_ratio; [lra | exact Hx]. }
    exists name. rewrite E3. now split.
  - split; [| split]; [intros E; contradiction | intros E; contradiction |].
    reflexivity.
Qed.

Section DefaultTaps.

(** A tap under the default configuration, three zones. *)
Lemma run_tap_defaults (w x0 y0 : R) (k : Z) :
  Math.floor (x0 * 3 / w) = k ->
  run defaults w idle [Start x0 y0; End] =
    Ok (idle,
        [fire (js_index ["touchleft"; "touchmiddle"; "touchright"]%string k) None]).
Proof.
  intros Hk. rewrite run_cons. cbn [step touchStartHandler bind fst snd].
  rewrite run_end.
  rewrite (touchEndHandler_tap defaults w
             (mkSession (Some (x0, y0)) (Some (x0, y0)) None) x0 y0 (x0, y0)
             eq_refl eq_refl eq_refl).
  change (clickParts defaults) with 3.
  destruct (Req_dec_T 3 2) as [E | _]; [lra |].
  destruct (Req_dec_T 3 3) as [_ | N]; [| lra].
  rewrite Hk. reflexivity.
Qed.

End DefaultTaps.

(** The scenario of the design: three zones, a surface 300 wide, a tap at
    (250, 50) fires [touchright]. *)
Lemma tap_fires_zone_action_witness :
  run defaults 300 idle [Start 250 50; End] =
    Ok (idle, [fire (Some "touchright"%string) None]).
Proof.
  destruct (tap_fires_zone_action defaults 300 idle 250 50 [])
    as (a & Hrun & _ & H3 & _).
  - constructor.
  - destruct (H3 eq_refl) as (name & -> & Hn); [lra |].
    cbn [clickParts defaults] in Hn.
    rewrite (floor_eq 2 (250 * 3 / 300)) in Hn by lra.
    cbn in Hn. injection Hn as <-. exact Hrun.
Defined.

(** C1 as stated fails for a start at the right edge: with three zones and a
    surface 300 wide, a tap at x = 300 indexes the table at 3 and the action
    passed to [trigger] is [undefined], not a tap action. *)
Lemma tap_at_right_edge_fires_undefined :
  Forall (fun m => Math.hypot (fst m - 300) (snd m - 50)
                   <= Math.min (minDistanceX defaults) (minDistanceY defaults)) [] /\
  run defaults 300 idle (Start 300 50 :: moves [] ++ [End]) =
    Ok (idle, [fire None None]) /\
  ~ (exists name,
        run defaults 300 idle (Start 300 50 :: moves [] ++ [End]) =
          Ok (idle, [fire (Some name) None])).
Proof.
  assert (E : run defaults 300 idle (Start 300 50 :: moves [] ++ [End]) =
              Ok (idle, [fire None None])).
  { change (Start 300 50 :: moves [] ++ [End]) with [Start 300 50; End].
    rewrite (run_tap_defaults 300 300 50 3); [reflexivity |].
    apply floor_eq. lra. }
  split; [constructor | split; [exact E |]].
  intros [name H]. rewrite E in H. discriminate.
Qed.

(** C2: in a session whose axis is locked to the horizontal when it ends,
    the end fires [slideright] for [dx > 0] and [slideleft] for [dx < 0] if
    [|dx| >= minDistanceX], and [cancelx] if [|dx| < minDistanceX]; neither
    [movey] nor [cancely] fires in the whole session.  Likewise for the
    vertical axis with [dy], [minDistanceY], [slidedown], [slideup] and
    [cancely].  Here [dx] and [dy] are the displacement of the last move from
    the start. *)
Theorem locked_axis_slides_or_cancels (c : Config) (w : R) (s : Session)
        (x0 y0 : R) (ms : list Point) (s' : Session) (tr : list Fired) :
  run c w s (Start x0 y0 :: moves ms) = Ok (s', tr) ->
  let dx := fst (List.last ms (x0, y0)) - x0 in
  let dy := snd (List.last ms (x0, y0)) - y0 in
  (direction s' = Some DirX ->
   exists a,
     run c w s (Start x0 y0 :: moves ms ++ [End]) =
       Ok (idle, tr ++ [fire (Some a) None]) /\
     Forall (fun f => action f <> Some "movey"%string /\
                      action f <> Some "cancely"%string)
            (tr ++ [fire (Some a) None]) /\
     (Rabs dx >= minDistanceX c ->
      (dx > 0 -> a = "slideright"%string) /\ (dx < 0 -> a = "slideleft"%string)) /\
     (Rabs dx < minDistanceX c -> a = "cancelx"%string)) /\
  (direction s' = Some DirY ->
   exists a,
     run c w s (Start x0 y0 :: moves ms ++ [End]) =
       Ok (idle, tr ++ [fire (Some a) None]) /\
     Forall (fun f => action f <> Some "movex"%string /\
                      action f <> Some "cancelx"%string)
            (tr ++ [fire (Some a) None]) /\
     (Rabs dy >= minDistanceY c ->
      (dy > 0 -> a = "slidedown"%string) /\ (dy < 0 -> a = "slideup"%string)) /\
     (Rabs dy < minDistanceY c -> a = "cancely"%string)).
Proof.
  intros Hrun dx dy.
  destruct (run_session c w s x0 y0 ms)
    as (s'' & tr'' & Hrun' & Hs' & Hl' & _ & Hmv & _).
  rewrite Hrun in Hrun'. injection Hrun' as <- <-.
  destruct (List.last ms (x0, y0)) as [x1 y1] eqn:Hlast.
  cbn [fst snd] in dx, dy.
  split; intros Hd.
  - pose proof (touchEndHandler_locked c w s' x0 y0 x1 y1 DirX Hs' Hl' Hd) as Hend.
    cbv iota in Hend.
    match type of Hend with _ = Ok (_, [fire (Some ?a) None]) => exists a end.
    split; [exact (run_session_end c w s s' x0 y0 ms tr _ Hrun Hend) |].
    split; [| split].
    + apply Forall_app. split.
      * eapply List.Forall_impl; [| exact (Hmv DirX Hd)].
        intros f Hf. cbn in Hf. rewrite Hf. split; discriminate.
      * constructor; [| constructor]. cbn [action].
        destruct (Rlt_dec _ _); [| destruct (Rgt_dec _ _)]; split; discriminate.
    + intros Hge. fold dx.
      destruct (Rlt_dec (Rabs dx) (minDistanceX c)) as [Hlt | _]; [lra |].
      destruct (Rgt_dec dx 0); split; intros; try reflexivity; lra.
    + intros Hlt. fold dx.
      destruct (Rlt_dec (Rabs dx) (minDistanceX c)); [reflexivity | lra].
  - pose proof (touchEndHandler_locked c w s' x0 y0 x1 y1 DirY Hs' Hl' Hd) as Hend.
    cbv iota in Hend.
    match type of Hend with _ = Ok (_, [fire (Some ?a) None]) => exists a end.
    split; [exact (run_session_end c w s s' x0 y0 ms tr _ Hrun Hend) |].
    split; [| split].
    + apply Forall_app. split.
      * eapply List.Forall_impl; [| exact (Hmv DirY Hd)].
        intros f Hf. cbn in Hf. rewrite Hf. split; discriminate.
      * constructor; [| constructor]. cbn [action].
        destruct (Rlt_dec _ _); [| destruct (Rgt_dec _ _)]; split; discriminate.
    + intros Hge. fold dy.
      destruct (Rlt_dec (Rabs dy) (minDistanceY c)) as [Hlt | _]; [lra |].
      destruct (Rgt_dec dy 0); split; intros; try reflexivity; lra.
    + intros Hlt. fold dy.
      destruct (Rlt_dec (Rabs dy) (minDistanceY c)); [reflexivity | lra].
Qed.

Section DefaultDrags.

(** Under the default configuration a displacement of more than 20 in the
    octant [0 <= dy <= dx] is horizontal. *)
Lemma calculateDirection_defaults_octant (dx dy : R) :
  0 < dx -> 0 <= dy <= dx -> 400 < dx * dx + dy * dy ->
  calculateDirection defaults (dx, dy) = Some DirX.
Proof.
  intros Hx Hy Hfar.
  rewrite calculateDirection_angle
    by (rewrite minDistance_defaults; apply hypot_gt; lra).
  destruct (atan2_first_octant dy dx Hx Hy) as [E [Hlo Hhi]].
  pose proof PI_pos as HPI.
  assert (Hdev : Math.PI / 4 <= ray_deviation dx dy).
  { unfold ray_deviation.
    destruct (Rlt_dec 0 dy); [| destruct (Rlt_dec dy 0); lra].
    rewrite E. unfold Math.abs.
    replace (atan (dy / dx) - Math.PI / 2)
      with (- (Math.PI / 2 - atan (dy / dx))) by lra.
    rewrite Rabs_Ropp, Rabs_pos_eq; lra. }
  unfold defaults. cbn [yRadian].
  destruct (Rlt_dec _ _); [lra | reflexivity].
Qed.

(** The drag of the design's scenario, up to its last move. *)
Lemma run_drag_right (w : R) :
  run defaults w idle (Start 0 0 :: moves [(50, 2)]) =
    Ok (mkSession (Some (0, 0)) (Some (50, 2)) (Some DirX),
        [fire (Some "movex"%string) (Some (50 - 0))]).
Proof.
  change (moves [(50, 2)]) with [Move 50 2].
  rewrite run_cons. cbn [step touchStartHandler bind fst snd].
  rewrite run_cons. cbn [step].
  rewrite (touchMoveHandler_active defaults
             (mkSession (Some (0, 0)) (Some (0, 0)) None) 50 2 0 0 eq_refl).
  cbn [direction].
  rewrite calculateDirection_defaults_octant by lra.
  reflexivity.
Qed.

End DefaultDrags.

(** The scenario of the design: [start(0, 0)], [move(50, 2)], [end] under
    the default thresholds locks the horizontal axis and fires
    [slideright]. *)
Lemma locked_axis_slides_or_cancels_witness :
  exists a,
    run defaults 300 idle [Start 0 0; Move 50 2; End] =
      Ok (idle, [fire (Some "movex"%string) (Some (50 - 0)); fire (Some a) None]) /\
    a = "slideright"%string.
Proof.
  destruct (proj1 (locked_axis_slides_or_cancels defaults 300 idle 0 0 [(50, 2)]
                     _ _ (run_drag_right 300)) eq_refl)
    as (a & Hrun & _ & Hslide & _).
  exists a. split; [exact Hrun |].
  cbn [List.last fst snd defaults minDistanceX] in Hslide.
  apply Hslide.
  - rewrite Rabs_pos_eq; lra.
  - lra.
Defined.

(** C6, on the signals as the classifier handles them: [cancel] with a
    locked axis fires exactly the cancel action of that axis ([cancelx] or
    [cancely]) and nothing else, whatever the positions are, and [cancel]
    without a locked axis fires nothing; either way the session is
    discarded.  [end] with [startPos] or [lastPos] unset does exactly what
    [cancel] does.  [move] without a start changes nothing and fires
    nothing.  No signal, in any state, makes a handler throw, and neither
    does any stream of signals. *)
Theorem cancel_and_stray_signals (c : Config) (w : R) :
  (forall s, direction s = Some DirX ->
             step c w s Cancel = Ok (idle, [fire (Some "cancelx"%string) None])) /\
  (forall s, direction s = Some DirY ->
             step c w s Cancel = Ok (idle, [fire (Some "cancely"%string) None])) /\
  (forall s, direction s = None -> step c w s Cancel = Ok (idle, [])) /\
  (forall s, startPos s = None \/ lastPos s = None ->
             step c w s End =
               Ok (idle,
                   match direction s with
                   | Some DirX => [fire (Some "cancelx"%string) None]
                   | Some DirY => [fire (Some "cancely"%string) None]
                   | None => []
                   end)) /\
  (forall s x y, startPos s = None -> step c w s (Move x y) = Ok (s, [])) /\
  (forall s sig, exists r, step c w s sig = Ok r) /\
  (forall s sigs, exists r, run c w s sigs = Ok r).
Proof.
  split; [| split; [| split; [| split; [| split; [| split]]]]].
  - intros s Hd. cbn [step]. unfold touchCancelHandler. now rewrite Hd.
  - intros s Hd. cbn [step]. unfold touchCancelHandler. now rewrite Hd.
  - intros s Hd. cbn [step]. unfold touchCancelHandler. now rewrite Hd.
  - intros s H. cbn [step]. rewrite (touchEndHandler_unset c w s H).
    unfold touchCancelHandler. now destruct (direction s) as [[|] |].
  - intros s x y H. cbn [step]. now apply touchMoveHandler_idle.
  - intros s sig. apply step_returns.
  - intros s sigs. apply run_returns.
Qed.

(** C6 on a session locked to the vertical axis, 40 down from its start:
    [cancel] fires [cancely], where [end] would fire [slidedown]. *)
Lemma cancel_and_stray_signals_witness :
  direction (mkSession (Some (0, 0)) (Some (3, 40)) (Some DirY)) = Some DirY /\
  step defaults 300 (mkSession (Some (0, 0)) (Some (3, 40)) (Some DirY)) Cancel =
    Ok (idle, [fire (Some "cancely"%string) None]).
Proof.
  split; [reflexivity |].
  apply (proj1 (proj2 (cancel_and_stray_signals defaults 300))
           (mkSession (Some (0, 0)) (Some (3, 40)) (Some DirY))).
  reflexivity.
Defined.

(** ** The action vocabulary *)

Section Vocabulary.

Lemma step_fires_action_names (c : Config) (w : R) (s s' : Session)
      (sig : Signal) (fired : list Fired) :
  step c w s sig = Ok (s', fired) ->
  Forall (fun f => forall name, action f = Some name -> In name action_names)
         fired.
Proof.
  intros H.
  assert (Hone : forall name : string, In name action_names ->
            Forall (fun f => forall n, action f = Some n -> In n action_names)
                   [fire (Some name) None]).
  { intros name Hin. constructor; [| constructor].
    intros n Hn. cbn in Hn. now injection Hn as <-. }
  destruct sig as [x y | x y | |]; cbn [step] in H.
  - injection H as _ <-. constructor.
  - destruct (startPos s) as [[x0 y0] |] eqn:Hs.
    + rewrite (touchMoveHandler_active c s x y x0 y0 Hs) in H. cbv zeta in H.
      remember (match direction s with
                | Some d => Some d
                | None => calculateDirection c (x - x0, y - y0)
                end) as d1 eqn:Ed1.
      clear Ed1. injection H as _ <-.
      destruct d1 as [[|] |]; [| | constructor];
        (constructor; [| constructor]); intros n Hn; cbn in Hn;
        injection Hn as <-; cbn; tauto.
    + rewrite (touchMoveHandler_idle c s x y Hs) in H.
      injection H as _ <-. constructor.
  - destruct (startPos s) as [[x0 y0] |] eqn:Hs;
      [destruct (lastPos s) as [[x1 y1] |] eqn:Hl |].
    + destruct (direction s) as [d |] eqn:Hd.
      * rewrite (touchEndHandler_locked c w s x0 y0 x1 y1 d Hs Hl Hd) in H.
        injection H as _ <-. apply Hone.
        destruct d; destruct (Rlt_dec _ _); try destruct (Rgt_dec _ _);
          cbn; tauto.
      * rewrite (touchEndHandler_tap c w s x0 y0 (x1, y1) Hs Hl Hd) in H.
        injection H as _ <-. constructor; [| constructor].
        intros n Hn. cbn [action] in Hn.
        destruct (Req_dec_T (clickParts c) 2);
          [| destruct (Req_dec_T (clickParts c) 3)].
        -- unfold js_index in Hn. destruct (_ <? 0)%Z; [discriminate |].
           apply nth_error_In in Hn. cbn in Hn |- *. tauto.
        -- unfold js_index in Hn. destruct (_ <? 0)%Z; [discriminate |].
           apply nth_error_In in Hn. cbn in Hn |- *. tauto.
        -- injection Hn as <-. cbn. tauto.
    + rewrite touchEndHandler_unset in H by now right.
      injection H as _ <-. unfold touchCancelHandler. cbn [snd].
      destruct (direction s) as [[|] |]; [apply Hone | apply Hone | constructor];
        cbn; tauto.
    + rewrite touchEndHandler_unset in H by now left.
      injection H as _ <-. unfold touchCancelHandler. cbn [snd].
      destruct (direction s) as [[|] |]; [apply Hone | apply Hone | constructor];
        cbn; tauto.
  - injection H as _ <-. unfold touchCancelHandler. cbn [snd].
    destruct (direction s) as [[|] |]; [apply Hone | apply Hone | constructor];
      cbn; tauto.
Qed.

End Vocabulary.

(** ** Every action name is fired by some session *)

Section Reachable.

Variable w : R.

Lemma Rabs_gt_sqr (t m : R) : 0 <= m -> m < Rabs t -> m * m < t * t.
Proof.
  intros Hm H. unfold Rabs in H. destruct (Rcase_abs t); nra.
Qed.

Lemma calculateDirection_defaults_horizontal (dx dy : R) :
  dy = 0 -> 20 < Rabs dx -> calculateDirection defaults (dx, dy) = Some DirX.
Proof.
  intros -> H. pose proof (Rabs_gt_sqr dx 20 ltac:(lra) H).
  rewrite calculateDirection_angle
    by (rewrite minDistance_defaults; apply hypot_gt; lra).
  pose proof PI_pos. unfold ray_deviation, defaults. cbn [yRadian].
  destruct (Rlt_dec 0 0); [lra |].
  real_cases.
Qed.

Lemma calculateDirection_defaults_vertical (dx dy : R) :
  dx = 0 -> 20 < Rabs dy -> calculateDirection defaults (dx, dy) = Some DirY.
Proof.
  intros -> H. pose proof (Rabs_gt_sqr dy 20 ltac:(lra) H).
  rewrite calculateDirection_angle
    by (rewrite minDistance_defaults; apply hypot_gt; lra).
  pose proof PI_pos as HPI.
  assert (E : ray_deviation 0 dy = 0).
  { unfold ray_deviation, Math.atan2, Math.abs.
    destruct (Rlt_dec 0 0); [lra |].
    destruct (Rlt_dec 0 dy).
    - replace (Math.PI / 2 - Math.PI / 2) with 0 by lra. apply Rabs_R0.
    - destruct (Rlt_dec dy 0).
      + replace (- Math.PI / 2 + Math.PI / 2) with 0 by lra. apply Rabs_R0.
      + exfalso. assert (dy = 0) by lra. subst dy. rewrite Rabs_R0 in H. lra. }
  rewrite E. unfold defaults. cbn [yRadian].
  destruct (Rlt_dec _ _); [reflexivity | lra].
Qed.

(** A session of one move that locks the axis [d], up to its last
    signal. *)
Lemma run_drag (c : Config) (x0 y0 x y : R) (d : Direction) (sig : Signal) :
  calculateDirection c (x - x0, y - y0) = Some d ->
  run c w idle [Start x0 y0; Move x y; sig] =
    let* r := step c w (mkSession (Some (x0, y0)) (Some (x, y)) (Some d)) sig in
    Ok (fst r,
        fire (Some (move_action d))
             (Some match d with DirX => x - x0 | DirY => y - y0 end) :: snd r).
Proof.
  intros Hd. rewrite run_cons. cbn [step touchStartHandler bind fst snd].
  rewrite run_cons. cbn [step].
  rewrite (touchMoveHandler_active c
             (mkSession (Some (x0, y0)) (Some (x0, y0)) None) x y x0 y0 eq_refl).
  cbn [direction]. rewrite Hd. cbn [bind fst snd].
  rewrite run_cons.
  destruct (step c w _ sig) as [[s1 tr1] |]; cbn [bind fst snd run];
    [| reflexivity].
  rewrite app_nil_r. now destruct d.
Qed.

Lemma run_drag_defaults (x y : R) (d : Direction) :
  calculateDirection defaults (x - 0, y - 0) = Some d ->
  20 <= Rabs (match d with DirX => x - 0 | DirY => y - 0 end) ->
  run defaults w idle [Start 0 0; Move x y; End] =
    Ok (idle,
        [fire (Some (move_action d))
              (Some match d with DirX => x - 0 | DirY => y - 0 end);
         fire (Some match d with
                    | DirX => if Rgt_dec (x - 0) 0 then "slideright" else "slideleft"
                    | DirY => if Rgt_dec (y - 0) 0 then "slidedown" else "slideup"
                    end%string) None]).
Proof.
  intros Hd Hfar. rewrite (run_drag defaults 0 0 x y d End Hd). cbn [step].
  rewrite (touchEndHandler_locked defaults w
             (mkSession (Some (0, 0)) (Some (x, y)) (Some d)) 0 0 x y d
             eq_refl eq_refl eq_refl).
  cbn [bind fst snd defaults minDistanceX minDistanceY].
  destruct d.
  - destruct (Rlt_dec (Rabs (x - 0)) 20); [lra | reflexivity].
  - destruct (Rlt_dec (Rabs (y - 0)) 20); [lra | reflexivity].
Qed.

Lemma run_drag_cancel_defaults (x y : R) (d : Direction) :
  calculateDirection defaults (x - 0, y - 0) = Some d ->
  run defaults w idle [Start 0 0; Move x y; Cancel] =
    Ok (idle,
        [fire (Some (move_action d))
              (Some match d with DirX => x - 0 | DirY => y - 0 end);
         fire (Some (cancel_action d)) None]).
Proof.
  intros Hd. rewrite (run_drag defaults 0 0 x y d Cancel Hd).
  cbn [step touchCancelHandler direction bind fst snd]. now destruct d.
Qed.

End Reachable.

Section ReachableNames.

Lemma Rabs_50 (t : R) : t = 50 \/ t = -50 -> Rabs t = 50.
Proof. intros [-> | ->]; unfold Rabs; destruct (Rcase_abs _); lra. Qed.

Lemma run_tap_single_zone :
  run (mkConfig 20 20 1 (Math.PI / 2)) 300 idle [Start 250 50; End] =
    Ok (idle, [fire (Some "touch"%string) None]).
Proof.
  rewrite run_cons. cbn [step touchStartHandler bind fst snd].
  rewrite run_end.
  rewrite (touchEndHandler_tap _ 300
             (mkSession (Some (250, 50)) (Some (250, 50)) None) 250 50 (250, 50)
             eq_refl eq_refl eq_refl).
  cbn [clickParts]. real_cases.
Qed.

Lemma run_slide (x y : R) (d : Direction) :
  (d = DirX /\ y = 0 /\ (x = 50 \/ x = -50)) \/
  (d = DirY /\ x = 0 /\ (y = 50 \/ y = -50)) ->
  calculateDirection defaults (x - 0, y - 0) = Some d /\
  20 <= Rabs (match d with DirX => x - 0 | DirY => y - 0 end).
Proof.
  intros [(-> & Hy & Hx) | (-> & Hx & Hy)].
  - assert (E : Rabs (x - 0) = 50) by (apply Rabs_50; lra).
    split; [| lra]. apply calculateDirection_defaults_horizontal; lra.
  - assert (E : Rabs (y - 0) = 50) by (apply Rabs_50; lra).
    split; [| lra]. apply calculateDirection_defaults_vertical; lra.
Qed.

(** Each of the twelve names is fired in some session from the idle
    state, on a surface 300 wide. *)
Lemma action_names_fired (name : string) :
  In name action_names ->
  exists c sigs s' tr off,
    run c 300 idle sigs = Ok (s', tr) /\ In (fire (Some name) off) tr.
Proof.
  intros Hin. cbn in Hin.
  repeat (destruct Hin as [<- | Hin]); [.. | contradiction].
  - eexists _, _, _, _, _. split; [exact run_tap_single_zone | now left].
  - eexists defaults, _, _, _, _. split.
    + apply (run_tap_defaults 300 50 50 0). apply floor_eq. lra.
    + now left.
  - eexists defaults, _, _, _, _. split.
    + apply (run_tap_defaults 300 250 50 2). apply floor_eq. lra.
    + now left.
  - eexists defaults, _, _, _, _. split.
    + apply (run_tap_defaults 300 150 50 1). apply floor_eq. lra.
    + now left.
  - destruct (run_slide 50 0 DirX) as [Hd Hfar]; [left; repeat split; now left |].
    eexists defaults, _, _, _, _. split.
    + exact (run_drag_defaults 300 50 0 DirX Hd Hfar).
    + now left.
  - destruct (run_slide 0 50 DirY) as [Hd Hfar]; [right; repeat split; now left |].
    eexists defaults, _, _, _, _. split.
    + exact (run_drag_defaults 300 0 50 DirY Hd Hfar).
    + now left.
  - destruct (run_slide 50 0 DirX) as [Hd _]; [left; repeat split; now left |].
    eexists defaults, _, _, _, _. split.
    + exact (run_drag_cancel_defaults 300 50 0 DirX Hd).
    + right. now left.
  - destruct (run_slide 0 50 DirY) as [Hd _]; [right; repeat split; now left |].
    eexists defaults, _, _, _, _. split.
    + exact (run_drag_cancel_defaults 300 0 50 DirY Hd).
    + right. now left.
  - destruct (run_slide 0 (-50) DirY) as [Hd Hfar];
      [right; repeat split; now right |].
    eexists defaults, _, _, _, _. split.
    + exact (run_drag_defaults 300 0 (-50) DirY Hd Hfar).
    + right. left. cbv iota. destruct (Rgt_dec (-50 - 0) 0); [lra | reflexivity].
  - destruct (run_slide 0 50 DirY) as [Hd Hfar]; [right; repeat split; now left |].
    eexists defaults, _, _, _, _. split.
    + exact (run_drag_defaults 300 0 50 DirY Hd Hfar).
    + right. left. cbv iota. destruct (Rgt_dec (50 - 0) 0); [reflexivity | lra].
  - destruct (run_slide (-50) 0 DirX) as [Hd Hfar];
      [left; repeat split; now right |].
    eexists defaults, _, _, _, _. split.
    + exact (run_drag_defaults 300 (-50) 0 DirX Hd Hfar).
    + right. left. cbv iota. destruct (Rgt_dec (-50 - 0) 0); [lra | reflexivity].
  - destruct (run_slide 50 0 DirX) as [Hd Hfar]; [left; repeat split; now left |].
    eexists defaults, _, _, _, _. split.
    + exact (run_drag_defaults 300 50 0 DirX Hd Hfar).
    + right. left. cbv iota. destruct (Rgt_dec (50 - 0) 0); [reflexivity | lra].
Qed.

End ReachableNames.

(** ** The listener registry *)

Section Registry.

Context {L : Type}.

Implicit Types (ls : gmap (option string) (list L)) (a k : option string).

Lemma addListener_lookup ls k (l : L) a :
  default [] (addListener ls k l !! a) =
    if decide (k = a) then default [] (ls !! a) ++ [l] else default [] (ls !! a).
Proof.
  unfold addListener. destruct (decide (k = a)) as [-> | Hne].
  - rewrite lookup_insert_eq. cbn.
    destruct (ls !! a) as [fs |] eqn:E.
    + now rewrite E.
    + now rewrite lookup_insert_eq.
  - rewrite lookup_insert_ne by exact Hne.
    destruct (ls !! k); [reflexivity |].
    now rewrite lookup_insert_ne by exact Hne.
Qed.

Lemma addListener_dom ls k (l : L) : dom (addListener ls k l) = {[k]} ∪ dom ls.
Proof.
  unfold addListener. rewrite dom_insert_L.
  destruct (ls !! k) eqn:E; [reflexivity |].
  rewrite dom_insert_L, (assoc_L (∪)), (idemp_L (∪)). reflexivity.
Qed.

Lemma fold_addListener_lookup (regs : list (option string * L)) a :
  forall ls,
    default [] (fold_left (fun ls r => addListener ls (fst r) (snd r)) regs ls !! a)
    = default [] (ls !! a)
        ++ map snd (filter (fun r => bool_decide (fst r = a)) regs).
Proof.
  induction regs as [| [k l] regs IH]; intros ls.
  - cbn. now rewrite app_nil_r.
  - cbn [fold_left fst snd]. rewrite IH, addListener_lookup.
    rewrite filter_cons. cbn [fst].
    destruct (decide (k = a)) as [-> | Hne].
    + rewrite decide_True by (now apply bool_decide_pack).
      cbn. now rewrite <- app_assoc.
    + rewrite decide_False; [reflexivity |].
      intros H. now apply bool_decide_unpack in H.
Qed.

(** The listeners of an action are the callbacks registered for it, in
    the order of their registration. *)
Lemma registry_lookup (regs : list (option string * L)) a :
  default [] (registry regs !! a) =
    map snd (filter (fun r => bool_decide (fst r = a)) regs).
Proof.
  unfold registry. rewrite fold_addListener_lookup.
  now rewrite lookup_empty.
Qed.

Lemma trigger_calls ls a (offset : option R) :
  trigger ls a offset =
    map (fun listener =>
           call listener [match offset with Some r => Number r | None => Null end])
        (default [] (ls !! a)).
Proof. unfold trigger. destruct (ls !! a); reflexivity. Qed.

Lemma registration_methods_dom (l : L) :
  map (fun m => dom (m ∅ l)) registration_methods =
    map (fun name => {[Some name]}) action_names.
Proof.
  unfold registration_methods, action_names. cbn [map].
  unfold onTouch, onTouchLeft, onTouchRight, onTouchMiddle, onMoveX, onMoveY,
    onCancelX, onCancelY, onSlideUp, onSlideDown, onSlideLeft, onSlideRight.
  rewrite !addListener_dom, dom_empty_L, !(right_id_L ∅ (∪)).
  reflexivity.
Qed.

End Registry.

Section Offsets.

(** [trigger] is given an offset exactly for the two move actions. *)
Lemma step_offsets (c : Config) (w : R) (s s' : Session) (sig : Signal)
      (fired : list Fired) :
  step c w s sig = Ok (s', fired) ->
  Forall (fun f =>
            match offset f with
            | Some _ => action f = Some "movex"%string \/ action f = Some "movey"%string
            | None => action f <> Some "movex"%string /\ action f <> Some "movey"%string
            end) fired.
Proof.
  intros H.
  assert (Hcancel :
            Forall (fun f =>
                      match offset f with
                      | Some _ => action f = Some "movex"%string
                                  \/ action f = Some "movey"%string
                      | None => action f <> Some "movex"%string
                                /\ action f <> Some "movey"%string
                      end) (snd (touchCancelHandler s))).
  { unfold touchCancelHandler. cbn [snd].
    destruct (direction s) as [[|] |]; [| | constructor];
      (constructor; [| constructor]); cbn; split; discriminate. }
  destruct sig as [x y | x y | |]; cbn [step] in H.
  - injection H as _ <-. constructor.
  - destruct (startPos s) as [[x0 y0] |] eqn:Hs.
    + rewrite (touchMoveHandler_active c s x y x0 y0 Hs) in H. cbv zeta in H.
      remember (match direction s with
                | Some d => Some d
                | None => calculateDirection c (x - x0, y - y0)
                end) as d1 eqn:Ed1.
      clear Ed1. injection H as _ <-.
      destruct d1 as [[|] |]; [| | constructor];
        (constructor; [| constructor]); cbn; tauto.
    + rewrite (touchMoveHandler_idle c s x y Hs) in H.
      injection H as _ <-. constructor.
  - destruct (startPos s) as [[x0 y0] |] eqn:Hs;
      [destruct (lastPos s) as [[x1 y1] |] eqn:Hl |].
    + destruct (direction s) as [d |] eqn:Hd.
      * rewrite (touchEndHandler_locked c w s x0 y0 x1 y1 d Hs Hl Hd) in H.
        injection H as _ <-. constructor; [| constructor]. cbn [offset action].
        destruct d; destruct (Rlt_dec _ _); try destruct (Rgt_dec _ _);
          split; discriminate.
      * rewrite (touchEndHandler_tap c w s x0 y0 (x1, y1) Hs Hl Hd) in H.
        injection H as _ <-. constructor; [| constructor]. cbn [offset action].
        assert (Hidx : forall (arr : list string) k n,
                   ~ In n arr -> js_index arr k <> Some n).
        { intros arr k n Hn E. unfold js_index in E.
          destruct (k <? 0)%Z; [discriminate |].
          apply nth_error_In in E. contradiction. }
        destruct (Req_dec_T (clickParts c) 2);
          [| destruct (Req_dec_T (clickParts c) 3)];
          split; try discriminate; apply Hidx; cbn;
          intros Hin; repeat (destruct Hin as [Hin | Hin]; try discriminate);
          contradiction.
    + rewrite touchEndHandler_unset in H by now right.
      injection H as _ <-. exact Hcancel.
    + rewrite touchEndHandler_unset in H by now left.
      injection H as _ <-. exact Hcancel.
  - injection H as _ <-. exact Hcancel.
Qed.

End Offsets.

(** C7, with the names of the code: every action name a handler passes to
    [trigger] is one of [touch], [touchleft], [touchright], [touchmiddle],
    [movex], [movey], [cancelx], [cancely], [slideup], [slidedown],
    [slideleft], [slideright]; each of the twelve is fired by some session;
    and the twelve registration methods register a listener under exactly
    these keys, one each. *)
Theorem action_vocabulary_of_the_code :
  action_names =
    ["touch"; "touchleft"; "touchright"; "touchmiddle"; "movex"; "movey";
     "cancelx"; "cancely"; "slideup"; "slidedown"; "slideleft"; "slideright"]%string /\
  (forall c w s sig s' fired,
      step c w s sig = Ok (s', fired) ->
      Forall (fun f => forall name, action f = Some name -> In name action_names)
             fired) /\
  (forall name,
      In name action_names ->
      exists c sigs s' tr off,
        run c 300 idle sigs = Ok (s', tr) /\ In (fire (Some name) off) tr) /\
  (forall (L : Type) (l : L),
      map (fun m => dom (m ∅ l)) (registration_methods (L := L)) =
        map (fun name => {[Some name]}) action_names).
Proof.
  split; [reflexivity | split; [| split]].
  - intros c w s sig s' fired. apply step_fires_action_names.
  - apply action_names_fired.
  - intros L l. apply registration_methods_dom.
Qed.

(** C7 on the end of a tap in the right third: the name fired is among the
    twelve. *)
Lemma action_vocabulary_of_the_code_witness :
  step defaults 300 (mkSession (Some (250, 50)) (Some (250, 50)) None) End =
    Ok (idle, [fire (Some "touchright"%string) None]) /\
  Forall (fun f => forall name, action f = Some name -> In name action_names)
         [fire (Some "touchright"%string) None].
Proof.
  assert (E : step defaults 300 (mkSession (Some (250, 50)) (Some (250, 50)) None) End
              = Ok (idle, [fire (Some "touchright"%string) None])).
  { cbn [step].
    rewrite (touchEndHandler_tap defaults 300
               (mkSession (Some (250, 50)) (Some (250, 50)) None) 250 50 (250, 50)
               eq_refl eq_refl eq_refl).
    change (clickParts defaults) with 3.
    destruct (Req_dec_T 3 2); [lra |]. destruct (Req_dec_T 3 3); [| lra].
    rewrite (floor_eq 2 (250 * 3 / 300)) by lra. reflexivity. }
  split; [exact E |].
  exact (proj1 (proj2 action_vocabulary_of_the_code) defaults 300 _ End idle _ E).
Defined.

(** C7 as stated fails on the spelling: the tap in the right third fires
    [touchright], and [onTouchRight] registers under that key; the listed
    vocabulary has [touch-right] instead. *)
Lemma fired_name_is_not_hyphenated :
  run defaults 300 idle [Start 250 50; End] =
    Ok (idle, [fire (Some "touchright"%string) None]) /\
  dom (onTouchRight (∅ : gmap (option string) (list nat)) 7%nat) =
    {[Some "touchright"%string]} /\
  ~ In "touchright"%string listed_vocabulary.
Proof.
  split; [| split].
  - rewrite (run_tap_defaults 300 250 50 2); [reflexivity |].
    apply floor_eq. lra.
  - unfold onTouchRight. rewrite addListener_dom, dom_empty_L.
    apply (right_id_L ∅ (∪)).
  - cbn. intros H. repeat (destruct H as [H | H]; [discriminate |]). exact H.
Qed.

(** C8, with the argument the code passes: when a handler fires an action,
    the callbacks registered for it are called in the order of their
    registration, each with exactly one argument, which is the numeric
    offset for [movex] and [movey] and [null] for every other action. *)
Theorem listeners_called_in_registration_order {L : Type}
        (regs : list (option string * L)) (c : Config) (w : R) (s s' : Session)
        (sig : Signal) (fired : list Fired) :
  step c w s sig = Ok (s', fired) ->
  Forall (fun f =>
            exists v,
              trigger (registry regs) (action f) (offset f) =
                map (fun l => call l [v])
                    (map snd (filter (fun r => bool_decide (fst r = action f)) regs)) /\
              (action f = Some "movex"%string \/ action f = Some "movey"%string ->
               exists r, v = Number r) /\
              (action f <> Some "movex"%string -> action f <> Some "movey"%string ->
               v = Null)) fired.
Proof.
  intros H. eapply List.Forall_impl; [| exact (step_offsets c w s s' sig fired H)].
  intros f Hf. cbn beta in Hf.
  exists (match offset f with Some r => Number r | None => Null end).
  split; [| split].
  - now rewrite trigger_calls, registry_lookup.
  - intros Hm. destruct (offset f) as [r |]; [now exists r |].
    destruct Hf as [Hx Hy]. destruct Hm; contradiction.
  - intros Hx Hy. destruct (offset f); [| reflexivity].
    destruct Hf; contradiction.
Qed.

(** C8 on a locked horizontal drag with two listeners for [movex] and one
    for [movey] between them: the two are called in order with the offset. *)
Lemma listeners_called_in_registration_order_witness :
  step defaults 300 (mkSession (Some (0, 0)) (Some (50, 2)) (Some DirX)) (Move 60 2) =
    Ok (mkSession (Some (0, 0)) (Some (60, 2)) (Some DirX),
        [fire (Some "movex"%string) (Some (60 - 0))]) /\
  trigger (registry [(Some "movex"%string, 1%nat); (Some "movey"%string, 2%nat);
                     (Some "movex"%string, 3%nat)])
          (Some "movex"%string) (Some (60 - 0)) =
    [call 1%nat [Number (60 - 0)]; call 3%nat [Number (60 - 0)]].
Proof.
  assert (E : step defaults 300 (mkSession (Some (0, 0)) (Some (50, 2)) (Some DirX))
                   (Move 60 2) =
              Ok (mkSession (Some (0, 0)) (Some (60, 2)) (Some DirX),
                  [fire (Some "movex"%string) (Some (60 - 0))])) by reflexivity.
  split; [exact E |].
  pose proof (listeners_called_in_registration_order
                [(Some "movex"%string, 1%nat); (Some "movey"%string, 2%nat);
                 (Some "movex"%string, 3%nat)]
                defaults 300 _ _ _ _ E) as H.
  apply Forall_inv in H. destruct H as (v & Hcalls & Hnum & _).
  cbn [action offset] in Hcalls, Hnum.
  rewrite Hcalls. rewrite trigger_calls in Hcalls.
  destruct (Hnum (or_introl eq_refl)) as [r ->].
  rewrite registry_lookup in Hcalls. cbn in Hcalls.
  injection Hcalls as ->. reflexivity.
Defined.

(** C8 as stated fails for the other actions: the listener of [touchright]
    is called with one argument, [null], not with none. *)
Lemma tap_listener_receives_null :
  run defaults 300 idle [Start 250 50; End] =
    Ok (idle, [fire (Some "touchright"%string) None]) /\
  deliver (onTouchRight ∅ 7%nat) [fire (Some "touchright"%string) None] =
    [call 7%nat [Null]] /\
  ~ Forall (fun cl : Call nat => args cl = [])
      (deliver (onTouchRight ∅ 7%nat) [fire (Some "touchright"%string) None]).
Proof.
  assert (E : deliver (onTouchRight ∅ 7%nat) [fire (Some "touchright"%string) None] =
              [call 7%nat [Null]]).
  { unfold deliver. cbn [flat_map action offset]. rewrite app_nil_r.
    rewrite trigger_calls. unfold onTouchRight.
    rewrite addListener_lookup, decide_True by reflexivity.
    now rewrite lookup_empty. }
  split; [| split; [exact E |]].
  - rewrite (run_tap_defaults 300 250 50 2); [reflexivity |].
    apply floor_eq. lra.
  - rewrite E. intros H. apply Forall_inv in H. discriminate.
Qed.

(** ** The pointer normaliser *)

Section Suppression.

Import Pointer.



End Suppression.




(** ** The slider's [setRatio] *)

Section Slider.

Import Range.

Lemma setRatio_one (config : RangeConfig) :
  setRatio config 1 = Some (clamped config 1).
Proof.
  unfold setRatio. destruct (Req_dec_T 1 0) as [E | _]; [lra | reflexivity].
Qed.

Lemma setRatio_zero (config : RangeConfig) :
  setRatio config 0 = Some (min config).
Proof.
  unfold setRatio. destruct (Req_dec_T 0 0) as [_ | N]; [reflexivity | lra].
Qed.

(** At 0 the general formula gives [config.min] as well. *)
Lemma clamped_zero (config : RangeConfig) :
  min config <= max config -> clamped config 0 = min config.
Proof.
  intros Hle. unfold clamped, Math.round, Math.min, Math.max.
  replace ((max config - min config) * 0 / step config + 1 / 2) with (1 / 2)
    by (unfold Rdiv; ring).
  rewrite (Zfloor_eq 0 (1 / 2)) by lra.
  replace (0 * step config + min config) with (min config) by ring.
  rewrite Rmax_left by lra. apply Rmin_right. exact Hle.
Qed.

Lemma clamped_one_step_three : clamped (mkRangeConfig 0 10 3) 1 = 9.
Proof.
  unfold clamped, Math.round, Math.min, Math.max. cbn [min max step].
  rewrite (Zfloor_eq 3 ((10 - 0) * 1 / 3 + 1 / 2)) by lra.
  replace (3 * 3 + 0) with 9 by lra.
  rewrite Rmax_right by lra. apply Rmin_right. lra.
Qed.

End Slider.

(** C10 on the code: at a ratio of 1 the assignment [pos = config.max] is
    followed by the [else] branch of the second [if], so the general formula
    decides; with [min 0, max 10, step 3] the slider is set to 9, not to 10.
    At a ratio of 0 it is [pos = config.min] that stands. *)
Theorem setRatio_one_is_recomputed :
  Range.setRatio (Range.mkRangeConfig 0 10 3) 1 = Some 9 /\
  Range.setRatio (Range.mkRangeConfig 0 10 3) 1
    <> Some (Range.max (Range.mkRangeConfig 0 10 3)) /\
  (forall config, Range.setRatio config 1 = Some (Range.clamped config 1)) /\
  (forall config, Range.setRatio config 0 = Some (Range.min config)).
Proof.
  assert (E : Range.setRatio (Range.mkRangeConfig 0 10 3) 1 = Some 9).
  { rewrite setRatio_one. now rewrite clamped_one_step_three. }
  split; [exact E | split; [| split]].
  - rewrite E. cbn [Range.max]. intros H. injection H as H. lra.
  - apply setRatio_one.
  - apply setRatio_zero.
Qed.

(** * Further properties of the normaliser *)

Section PointerGestures.

Import Pointer.

Lemma receive_all_app (es1 es2 : list Event) :
  forall s,
    receive_all s (es1 ++ es2) =
      (fst (receive_all (fst (receive_all s es1)) es2),
       snd (receive_all s es1) ++ snd (receive_all (fst (receive_all s es1)) es2)).
Proof.
  induction es1 as [| e es1 IH]; intros s.
  - cbn. now destruct (receive_all s es2).
  - rewrite <- app_comm_cons. cbn [receive_all fst snd].
    rewrite IH. cbn [fst snd]. now rewrite app_assoc.
Qed.

Lemma receive_mousemoves (ms : list Point) (s : State) :
  mouseDown s = true -> globalMouseHandlers s = true ->
  receive_all s (mousemoves ms) = (s, moves ms).
Proof.
  intros Hd Hg. induction ms as [| [x y] ms IH]; [reflexivity |].
  change (mousemoves ((x, y) :: ms)) with (mousemove x y :: mousemoves ms).
  cbn [receive_all receive]. rewrite Hg. unfold mouseMoveHandler. rewrite Hd.
  cbn [fst snd]. now rewrite IH.
Qed.

Lemma receive_touchmoves (ms : list Point) (s : State) :
  touchStart s = true -> globalTouchHandlers s = true ->
  receive_all s (touchmoves ms) = (s, moves ms).
Proof.
  intros Hd Hg. induction ms as [| [x y] ms IH]; [reflexivity |].
  change (touchmoves ((x, y) :: ms)) with (touchmove x y :: touchmoves ms).
  cbn [receive_all receive]. rewrite Hg. unfold touchMoveHandler. rewrite Hd.
  cbn [fst snd]. now rewrite IH.
Qed.

Lemma receive_mouse_gesture (s : State) (x y : R) (ms : list Point) (e : Event) :
  elementHandlers s = true -> touchStart s = false ->
  e = mouseup \/ e = mouseleave ->
  receive_all s (mousedown x y :: mousemoves ms ++ [e]) =
    (mkState false false true false (globalTouchHandlers s),
     Start x y :: moves ms ++ [End]).
Proof.
  intros Hb Ht He. destruct s as [md ts eh gm gt]. cbn in Hb, Ht. subst eh ts.
  cbn [receive_all receive elementHandlers mouseDownHandler touchStart fst snd].
  rewrite receive_all_app, receive_mousemoves by reflexivity.
  destruct He as [-> | ->]; reflexivity.
Qed.

Lemma receive_touch_gesture (s : State) (x y : R) (ms : list Point) (e : Event) :
  elementHandlers s = true ->
  e = touchend \/ e = touchcancel ->
  receive_all s (touchstart x y :: touchmoves ms ++ [e]) =
    (mkState (mouseDown s) true true (globalMouseHandlers s) false,
     Start x y :: moves ms
       ++ [match e with touchcancel => Cancel | _ => End end]).
Proof.
  intros Hb He. destruct s as [md ts eh gm gt]. cbn in Hb. subst eh.
  cbn [receive_all receive elementHandlers touchStartHandler fst snd].
  rewrite receive_all_app, receive_touchmoves by reflexivity.
  destruct He as [-> | ->]; reflexivity.
Qed.

End PointerGestures.

(** X1: a mouse gesture on the bound element (press, moves, release) with no
    touch flag pending is passed on unchanged as [start], the [move]s and
    [end]; afterwards no mouse session is active and the document's mouse
    listeners are detached.  Leaving the document with the button down ends
    the gesture the same way. *)
Theorem mouse_gesture_signals (s : Pointer.State) (x y : R) (ms : list Point) :
  Pointer.elementHandlers s = true -> Pointer.touchStart s = false ->
  Pointer.receive_all s
    (Pointer.mousedown x y :: Pointer.mousemoves ms ++ [Pointer.mouseup]) =
    (Pointer.mkState false false true false (Pointer.globalTouchHandlers s),
     Start x y :: moves ms ++ [End]) /\
  Pointer.receive_all s
    (Pointer.mousedown x y :: Pointer.mousemoves ms ++ [Pointer.mouseleave]) =
    (Pointer.mkState false false true false (Pointer.globalTouchHandlers s),
     Start x y :: moves ms ++ [End]).
Proof.
  intros Hb Ht. split.
  - apply receive_mouse_gesture; auto.
  - apply receive_mouse_gesture; auto.
Qed.

Lemma mouse_gesture_signals_witness :
  Pointer.receive_all Pointer.init
    (Pointer.mousedown 0 0 :: Pointer.mousemoves [(50, 2)] ++ [Pointer.mouseup]) =
    (Pointer.init, [Start 0 0; Move 50 2; End]).
Proof.
  exact (proj1 (mouse_gesture_signals Pointer.init 0 0 [(50, 2)] eq_refl eq_refl)).
Defined.

(** X2: a touch gesture on the bound element is passed on unchanged as
    [start], the [move]s and [end], or [cancel] when the touch is cancelled;
    afterwards the document's touch listeners are detached and the flag
    [touchStart] is still set. *)
Theorem touch_gesture_signals (s : Pointer.State) (x y : R) (ms : list Point) :
  Pointer.elementHandlers s = true ->
  Pointer.receive_all s
    (Pointer.touchstart x y :: Pointer.touchmoves ms ++ [Pointer.touchend]) =
    (Pointer.mkState (Pointer.mouseDown s) true true
                     (Pointer.globalMouseHandlers s) false,
     Start x y :: moves ms ++ [End]) /\
  Pointer.receive_all s
    (Pointer.touchstart x y :: Pointer.touchmoves ms ++ [Pointer.touchcancel]) =
    (Pointer.mkState (Pointer.mouseDown s) true true
                     (Pointer.globalMouseHandlers s) false,
     Start x y :: moves ms ++ [Cancel]).
Proof.
  intros Hb. split.
  - exact (receive_touch_gesture s x y ms Pointer.touchend Hb (or_introl eq_refl)).
  - exact (receive_touch_gesture s x y ms Pointer.touchcancel Hb (or_intror eq_refl)).
Qed.

Lemma touch_gesture_signals_witness :
  Pointer.receive_all Pointer.init
    (Pointer.touchstart 0 0 :: Pointer.touchmoves [(3, 40)] ++ [Pointer.touchcancel]) =
    (Pointer.mkState false true true false false, [Start 0 0; Move 3 40; Cancel]).
Proof.
  exact (proj2 (touch_gesture_signals Pointer.init 0 0 [(3, 40)] eq_refl)).
Defined.

Section PointerBalance.

Import Pointer.

Lemma started_app (a b : list Signal) : started (a ++ b) = (started a + started b)%nat.
Proof. unfold started. now rewrite map_app, list_sum_app. Qed.

Lemma closed_app (a b : list Signal) : closed (a ++ b) = (closed a + closed b)%nat.
Proof. unfold closed. now rewrite map_app, list_sum_app. Qed.

(** An event emits at most one signal. *)
Lemma receive_at_most_one (s : State) (e : Event) :
  snd (receive s e) = [] \/ exists sig, snd (receive s e) = [sig].
Proof.
  destruct s as [md ts eh gm gt].
  destruct e, md, ts, eh, gm, gt; cbn; eauto.
Qed.

(** Every [end] or [cancel] detaches a group of document listeners, and a
    group is attached only along with a [start]. *)
Lemma receive_balance (s : State) (e : Event) :
  (closed (snd (receive s e)) + attached (fst (receive s e))
   <= started (snd (receive s e)) + attached s)%nat.
Proof.
  unfold attached, closed, started.
  destruct s as [md ts eh gm gt].
  destruct e, md, ts, eh, gm, gt; cbn; lia.
Qed.

Lemma receive_move_attached (s : State) (e : Event) (x y : R) :
  snd (receive s e) = [Move x y] -> (1 <= attached s)%nat.
Proof.
  unfold attached.
  destruct s as [md ts eh gm gt].
  destruct e, md, ts, eh, gm, gt; cbn; intros H; try discriminate; lia.
Qed.

Lemma receive_all_balance (es : list Event) :
  forall s,
    (closed (snd (receive_all s es)) + attached (fst (receive_all s es))
     <= started (snd (receive_all s es)) + attached s)%nat.
Proof.
  induction es as [| e es IH]; intros s.
  - cbn. lia.
  - cbn [receive_all fst snd]. rewrite closed_app, started_app.
    pose proof (receive_balance s e). pose proof (IH (fst (receive s e))). lia.
Qed.

Lemma receive_all_move_open (es : list Event) :
  forall (s : State) (n : nat) (pre post : list Signal) (x y : R),
    (attached s <= n)%nat ->
    snd (receive_all s es) = pre ++ Move x y :: post ->
    (closed pre < n + started pre)%nat.
Proof.
  induction es as [| e es IH]; intros s n pre post x y Hn Hout.
  - cbn in Hout. now destruct pre.
  - cbn [receive_all snd] in Hout.
    pose proof (receive_balance s e) as Hbal.
    destruct (receive_at_most_one s e) as [E | [sig E]]; rewrite E in Hout, Hbal.
    + cbn [app] in Hout. apply (IH (fst (receive s e)) n pre post x y); [| exact Hout].
      cbn in Hbal. lia.
    + cbn [app] in Hout. destruct pre as [| sig' pre].
      * cbn [app] in Hout. injection Hout as -> _.
        pose proof (receive_move_attached s e x y E). cbn. lia.
      * rewrite <- app_comm_cons in Hout. injection Hout as <- Hout.
        change (closed (sig :: pre)) with (closes sig + closed pre)%nat.
        change (started (sig :: pre)) with (opens sig + started pre)%nat.
        change (closed [sig]) with (closes sig + 0)%nat in Hbal.
        change (started [sig]) with (opens sig + 0)%nat in Hbal.
        pose proof (IH (fst (receive s e)) (n + opens sig - closes sig)%nat
                       pre post x y ltac:(lia) Hout).
        lia.
Qed.

End PointerBalance.

(** X3: whatever DOM events arrive, in whatever order, the signals emitted
    since construction never hold more [end] and [cancel] signals than
    [start] signals, and every [move] comes while a session is open: strictly
    more [start]s than [end]s and [cancel]s precede it. *)
Theorem moves_and_ends_follow_a_start (es : list Pointer.Event) :
  (Pointer.closed (snd (Pointer.receive_all Pointer.init es))
   <= Pointer.started (snd (Pointer.receive_all Pointer.init es)))%nat /\
  (forall pre post x y,
      snd (Pointer.receive_all Pointer.init es) = pre ++ Move x y :: post ->
      (Pointer.closed pre < Pointer.started pre)%nat).
Proof.
  split.
  - pose proof (receive_all_balance es Pointer.init) as H.
    change (Pointer.attached Pointer.init) with 0%nat in H. lia.
  - intros pre post x y H.
    exact (receive_all_move_open es Pointer.init 0 pre post x y (Nat.le_refl 0) H).
Qed.

Lemma moves_and_ends_follow_a_start_witness :
  snd (Pointer.receive_all Pointer.init
         [Pointer.mousemove 5 5; Pointer.mousedown 0 0; Pointer.mousemove 9 9]) =
    [Start 0 0] ++ Move 9 9 :: [] /\
  (Pointer.closed [Start 0 0] < Pointer.started [Start 0 0])%nat.
Proof.
  split; [reflexivity |].
  exact (proj2 (moves_and_ends_follow_a_start
                  [Pointer.mousemove 5 5; Pointer.mousedown 0 0; Pointer.mousemove 9 9])
               [Start 0 0] [] 9 9 eq_refl).
Defined.

(** X4: after [dispatch] no DOM event reaches a handler: no signal is
    emitted and the state stays as [dispatch] left it, whatever the state
    was; and a second [dispatch] changes nothing. *)
Theorem dispatch_silences (s : Pointer.State) (es : list Pointer.Event) :
  Pointer.receive_all (Pointer.dispatch s) es = (Pointer.dispatch s, []) /\
  Pointer.dispatch (Pointer.dispatch s) = Pointer.dispatch s.
Proof.
  split; [| reflexivity].
  induction es as [| e es IH]; [reflexivity |].
  cbn [Pointer.receive_all].
  assert (E : Pointer.receive (Pointer.dispatch s) e = (Pointer.dispatch s, []))
    by (destruct e; reflexivity).
  rewrite E. cbn [fst snd]. now rewrite IH.
Qed.

Section PointerInvariant.

Import Pointer.

Lemma receive_pairing (s : State) (e : Event) :
  elementHandlers s = true -> globalMouseHandlers s = mouseDown s ->
  elementHandlers (fst (receive s e)) = true /\
  globalMouseHandlers (fst (receive s e)) = mouseDown (fst (receive s e)).
Proof.
  destruct s as [md ts eh gm gt]. cbn. intros -> ->.
  destruct e, md, ts, gt; cbn; auto.
Qed.

End PointerInvariant.

(** X5: from construction on, and as long as [dispatch] is not called, the
    document's mouse listeners are attached exactly while a mouse session is
    active ([mouseDown]), and the element's listeners stay attached. *)
Theorem mouse_listeners_paired (es : list Pointer.Event) :
  Pointer.globalMouseHandlers (fst (Pointer.receive_all Pointer.init es)) =
    Pointer.mouseDown (fst (Pointer.receive_all Pointer.init es)) /\
  Pointer.elementHandlers (fst (Pointer.receive_all Pointer.init es)) = true.
Proof.
  assert (H : forall s,
             Pointer.elementHandlers s = true ->
             Pointer.globalMouseHandlers s = Pointer.mouseDown s ->
             Pointer.globalMouseHandlers (fst (Pointer.receive_all s es)) =
               Pointer.mouseDown (fst (Pointer.receive_all s es)) /\
             Pointer.elementHandlers (fst (Pointer.receive_all s es)) = true).
  { induction es as [| e es IH]; intros s Hb Hp.
    - cbn. now split.
    - cbn [Pointer.receive_all fst].
      destruct (receive_pairing s e Hb Hp) as [Hb' Hp']. now apply IH. }
  now apply H.
Qed.


Section Swallowed.

Import Pointer.

Lemma receive_followup_silent (s : State) (e : Event) :
  touchStart s = false -> touch_followup e ->
  touchStart (fst (receive s e)) = false /\ snd (receive s e) = [].
Proof.
  destruct s as [md ts eh gm gt]. cbn. intros ->.
  destruct e; cbn; intros H; try contradiction; destruct gt; cbn; auto.
Qed.

Lemma receive_all_followup_silent (es : list Event) :
  forall s,
    touchStart s = false -> Forall touch_followup es ->
    snd (receive_all s es) = [].
Proof.
  induction es as [| e es IH]; intros s Ht Hes; [reflexivity |].
  inversion Hes as [| ? ? He Hes']; subst.
  cbn [receive_all snd].
  destruct (receive_followup_silent s e Ht He) as [Ht' ->].
  cbn [app]. now apply IH.
Qed.

End Swallowed.

(** X7: if a [mousedown] reaches the element while a touch is still down, it
    is swallowed and clears [touchStart]; from then on the [touchmove],
    [touchend] and [touchcancel] events of that touch emit nothing, so the
    session opened by its [start] gets no [end] and no [cancel]. *)
Theorem mousedown_during_touch_drops_it (s : Pointer.State) (x y x' y' : R)
        (es : list Pointer.Event) :
  Pointer.elementHandlers s = true ->
  Forall Pointer.touch_followup es ->
  snd (Pointer.receive_all s
         (Pointer.touchstart x y :: Pointer.mousedown x' y' :: es)) = [Start x y].
Proof.
  intros Hb Hes. destruct s as [md ts eh gm gt]. cbn in Hb. subst eh.
  change (Pointer.touchstart x y :: Pointer.mousedown x' y' :: es)
    with ([Pointer.touchstart x y; Pointer.mousedown x' y'] ++ es).
  rewrite receive_all_app. cbn [snd].
  rewrite (receive_all_followup_silent es); [reflexivity | reflexivity | exact Hes].
Qed.

Lemma mousedown_during_touch_drops_it_witness :
  snd (Pointer.receive_all Pointer.init
         [Pointer.touchstart 0 0; Pointer.mousedown 0 0;
          Pointer.touchmove 50 2; Pointer.touchend]) = [Start 0 0].
Proof.
  apply (mousedown_during_touch_drops_it Pointer.init 0 0 0 0
           [Pointer.touchmove 50 2; Pointer.touchend]).
  - reflexivity.
  - repeat constructor.
Defined.

(** ** The classifier on the normaliser *)

(** X8: as long as no touch flag is pending in the normaliser ([touchStart]
    is false, as it is on a freshly constructed listener), the same gesture
    made with the mouse or with a finger is recognised alike: press, moves
    and release give the classifier the same signals as touch, moves and
    lift, whatever state the classifier is in; on a freshly constructed
    [TouchGestureListener] the result is that of [start], the [move]s and
    [end]. *)
Theorem mouse_and_touch_recognised_alike (c : Config) (w x y : R)
        (ms : list Point) :
  Wiring.recognise c w
    (Pointer.mousedown x y :: Pointer.mousemoves ms ++ [Pointer.mouseup]) =
  Wiring.recognise c w
    (Pointer.touchstart x y :: Pointer.touchmoves ms ++ [Pointer.touchend]) /\
  Wiring.recognise c w
    (Pointer.mousedown x y :: Pointer.mousemoves ms ++ [Pointer.mouseup]) =
  run c w idle (Start x y :: moves ms ++ [End]) /\
  (forall (p : Pointer.State) (s : Session),
      Pointer.elementHandlers p = true -> Pointer.touchStart p = false ->
      snd (Pointer.receive_all p
             (Pointer.mousedown x y :: Pointer.mousemoves ms ++ [Pointer.mouseup])) =
        Start x y :: moves ms ++ [End] /\
      snd (Pointer.receive_all p
             (Pointer.touchstart x y :: Pointer.touchmoves ms ++ [Pointer.touchend])) =
        Start x y :: moves ms ++ [End] /\
      run c w s
        (snd (Pointer.receive_all p
                (Pointer.mousedown x y :: Pointer.mousemoves ms ++ [Pointer.mouseup]))) =
      run c w s
        (snd (Pointer.receive_all p
                (Pointer.touchstart x y :: Pointer.touchmoves ms
                   ++ [Pointer.touchend])))).
Proof.
  split; [| split].
  - unfold Wiring.recognise.
    rewrite (receive_mouse_gesture Pointer.init x y ms Pointer.mouseup
               eq_refl eq_refl (or_introl eq_refl)).
    now rewrite (receive_touch_gesture Pointer.init x y ms Pointer.touchend
                   eq_refl (or_introl eq_refl)).
  - unfold Wiring.recognise.
    now rewrite (receive_mouse_gesture Pointer.init x y ms Pointer.mouseup
                   eq_refl eq_refl (or_introl eq_refl)).
  - intros p s Hb Ht.
    rewrite (receive_mouse_gesture p x y ms Pointer.mouseup Hb Ht (or_introl eq_refl)).
    rewrite (receive_touch_gesture p x y ms Pointer.touchend Hb (or_introl eq_refl)).
    cbn [snd]. repeat split.
Qed.

(** X8 on a normaliser whose touch flag is clear while its document touch
    listeners are still attached. *)
Lemma mouse_and_touch_recognised_alike_witness :
  Pointer.elementHandlers (Pointer.mkState false false true false true) = true /\
  Pointer.touchStart (Pointer.mkState false false true false true) = false /\
  run defaults 300 idle
    (snd (Pointer.receive_all (Pointer.mkState false false true false true)
            (Pointer.mousedown 0 0 :: Pointer.mousemoves [(50, 2)]
               ++ [Pointer.mouseup]))) =
  run defaults 300 idle
    (snd (Pointer.receive_all (Pointer.mkState false false true false true)
            (Pointer.touchstart 0 0 :: Pointer.touchmoves [(50, 2)]
               ++ [Pointer.touchend]))).
Proof.
  split; [reflexivity | split; [reflexivity |]].
  apply (proj2 (proj2 (mouse_and_touch_recognised_alike defaults 300 0 0 [(50, 2)]))
           (Pointer.mkState false false true false true) idle eq_refl eq_refl).
Defined.

(** * Further properties of the classifier *)

(** X9: a signal fires at most one action; [start] fires none; and after
    [end] or [cancel] the session is discarded, whatever state it was in. *)
Theorem one_action_per_signal (c : Config) (w : R) (s s' : Session)
        (sig : Signal) (fired : list Fired) :
  step c w s sig = Ok (s', fired) ->
  (length fired <= 1)%nat /\
  (forall x y, sig = Start x y -> fired = []) /\
  (sig = End \/ sig = Cancel -> s' = idle).
Proof.
  intros H.
  assert (Hc : forall t f, Ok (touchCancelHandler s) = Ok (t, f) ->
                           (length f <= 1)%nat /\ t = idle).
  { unfold touchCancelHandler. intros t f E. injection E as <- <-.
    destruct (direction s); cbn; split; (lia || reflexivity). }
  destruct sig as [x y | x y | |]; cbn [step] in H.
  - injection H as <- <-. cbn.
    repeat split; try lia; intros [E | E]; discriminate.
  - split; [| split; [intros ? ? E; discriminate | intros [E | E]; discriminate]].
    destruct (startPos s) as [[x0 y0] |] eqn:Hs.
    + rewrite (touchMoveHandler_active c s x y x0 y0 Hs) in H. cbv zeta in H.
      remember (match direction s with
                | Some d => Some d
                | None => calculateDirection c (x - x0, y - y0)
                end) as d1 eqn:Ed1.
      clear Ed1. injection H as _ <-. destruct d1 as [[|] |]; cbn; lia.
    + rewrite (touchMoveHandler_idle c s x y Hs) in H. injection H as _ <-.
      cbn. lia.
  - assert (Hgoal : (length fired <= 1)%nat /\ s' = idle).
    { destruct (startPos s) as [[x0 y0] |] eqn:Hs;
        [destruct (lastPos s) as [[x1 y1] |] eqn:Hl |].
      - destruct (direction s) as [d |] eqn:Hd.
        + rewrite (touchEndHandler_locked c w s x0 y0 x1 y1 d Hs Hl Hd) in H.
          injection H as <- <-. cbn. split; [lia | reflexivity].
        + rewrite (touchEndHandler_tap c w s x0 y0 (x1, y1) Hs Hl Hd) in H.
          injection H as <- <-. cbn. split; [lia | reflexivity].
      - rewrite touchEndHandler_unset in H by now right. now apply Hc.
      - rewrite touchEndHandler_unset in H by now left. now apply Hc. }
    destruct Hgoal as [Hlen Hidle].
    split; [exact Hlen | split; [intros ? ? E; discriminate | intros _; exact Hidle]].
  - destruct (Hc s' fired H) as [Hlen Hidle].
    split; [exact Hlen | split; [intros ? ? E; discriminate | intros _; exact Hidle]].
Qed.

Lemma one_action_per_signal_witness :
  step defaults 300 (mkSession (Some (0, 0)) (Some (3, 40)) (Some DirY)) Cancel =
    Ok (idle, [fire (Some "cancely"%string) None]) /\
  (length [fire (Some "cancely"%string) None] <= 1)%nat.
Proof.
  split; [reflexivity |].
  exact (proj1 (one_action_per_signal defaults 300
                  (mkSession (Some (0, 0)) (Some (3, 40)) (Some DirY)) idle Cancel
                  [fire (Some "cancely"%string) None] eq_refl)).
Defined.

(** X10: outside a session nothing fires: from the idle state, any stream
    of [move], [end] and [cancel] signals without a [start] fires no action
    and leaves the state idle. *)
Theorem no_action_without_start (c : Config) (w : R) (sigs : list Signal) :
  Forall (fun sig => forall x y, sig <> Start x y) sigs ->
  run c w idle sigs = Ok (idle, []).
Proof.
  induction sigs as [| sig sigs IH]; intros H; [reflexivity |].
  inversion H as [| ? ? Hsig Hrest]; subst.
  rewrite run_cons.
  assert (E : step c w idle sig = Ok (idle, [])).
  { destruct sig as [x y | x y | |]; [now elim (Hsig x y) | | |]; reflexivity. }
  rewrite E. cbn [bind fst snd]. rewrite (IH Hrest). reflexivity.
Qed.

Lemma no_action_without_start_witness :
  run defaults 300 idle [Move 50 2; End; Cancel; Move 0 90; End] = Ok (idle, []).
Proof.
  apply (no_action_without_start defaults 300).
  repeat constructor; intros x y E; discriminate.
Defined.

(** X13: a listener added for an action is called last among the listeners
    of that action, with the one argument [trigger] passes, and triggering
    any other action is unaffected. *)
Theorem addListener_then_trigger {L : Type} (ls : gmap (option string) (list L))
        (k a : option string) (l : L) (off : option R) :
  trigger (addListener ls k l) a off =
    trigger ls a off
      ++ (if decide (k = a)
          then [call l [match off with Some r => Number r | None => Null end]]
          else []).
Proof.
  rewrite !trigger_calls, addListener_lookup.
  destruct (decide (k = a)).
  - now rewrite map_app.
  - now rewrite app_nil_r.
Qed.

(** ** The axis depends on the size of the two displacements only *)

Section AxisSymmetry.

Lemma div_opp_l (y x : R) : x <> 0 -> - y / x = - (y / x).
Proof. intros Hx. field. exact Hx. Qed.

Lemma div_opp_r (y x : R) : x <> 0 -> y / - x = - (y / x).
Proof. intros Hx. field. exact Hx. Qed.

Lemma atan2_opp_y (y x : R) : y <> 0 -> Math.atan2 (- y) x = - Math.atan2 y x.
Proof.
  intros Hy. unfold Math.atan2, Math.PI.
  destruct (Rlt_dec 0 x) as [Hx | Hx].
  - now rewrite div_opp_l, atan_opp by lra.
  - destruct (Rlt_dec x 0) as [Hx' | Hx'].
    + rewrite div_opp_l, atan_opp by lra.
      destruct (Rle_dec 0 (- y)), (Rle_dec 0 y); lra.
    + destruct (Rlt_dec 0 (- y)), (Rlt_dec 0 y), (Rlt_dec (- y) 0), (Rlt_dec y 0);
        lra.
Qed.

Lemma atan2_opp_x_upper (y x : R) :
  0 < y -> Math.atan2 y (- x) = Math.PI - Math.atan2 y x.
Proof.
  intros Hy. unfold Math.atan2, Math.PI.
  destruct (Rlt_dec 0 (- x)), (Rlt_dec 0 x); try lra.
  - destruct (Rlt_dec x 0); [| lra].
    rewrite div_opp_r, atan_opp by lra. destruct (Rle_dec 0 y); lra.
  - destruct (Rlt_dec (- x) 0); [| lra].
    rewrite div_opp_r, atan_opp by lra. destruct (Rle_dec 0 y); lra.
  - destruct (Rlt_dec (- x) 0), (Rlt_dec x 0); try lra.
    destruct (Rlt_dec 0 y); lra.
Qed.

Lemma atan2_opp_x_lower (y x : R) :
  y < 0 -> Math.atan2 y (- x) = - Math.PI - Math.atan2 y x.
Proof.
  intros Hy. unfold Math.atan2, Math.PI.
  destruct (Rlt_dec 0 (- x)), (Rlt_dec 0 x); try lra.
  - destruct (Rlt_dec x 0); [| lra].
    rewrite div_opp_r, atan_opp by lra. destruct (Rle_dec 0 y); lra.
  - destruct (Rlt_dec (- x) 0); [| lra].
    rewrite div_opp_r, atan_opp by lra. destruct (Rle_dec 0 y); lra.
  - destruct (Rlt_dec (- x) 0), (Rlt_dec x 0); try lra.
    destruct (Rlt_dec 0 y); [lra |]. destruct (Rlt_dec y 0); lra.
Qed.

Lemma Rabs_swap (a b : R) : Rabs (a - b) = Rabs (b - a).
Proof. apply Rabs_minus_sym. Qed.

Lemma ray_deviation_opp_y (dx dy : R) : ray_deviation dx (- dy) = ray_deviation dx dy.
Proof.
  unfold ray_deviation, Math.abs.
  destruct (Rlt_dec 0 (- dy)), (Rlt_dec 0 dy); try lra.
  - destruct (Rlt_dec dy 0); [| lra].
    rewrite atan2_opp_y by lra.
    replace (- Math.atan2 dy dx - Math.PI / 2)
      with (- (Math.atan2 dy dx + Math.PI / 2)) by lra.
    apply Rabs_Ropp.
  - destruct (Rlt_dec (- dy) 0); [| lra].
    rewrite atan2_opp_y by lra.
    replace (- Math.atan2 dy dx + Math.PI / 2)
      with (- (Math.atan2 dy dx - Math.PI / 2)) by lra.
    apply Rabs_Ropp.
  - destruct (Rlt_dec (- dy) 0), (Rlt_dec dy 0); lra.
Qed.

Lemma ray_deviation_opp_x (dx dy : R) : ray_deviation (- dx) dy = ray_deviation dx dy.
Proof.
  unfold ray_deviation, Math.abs.
  destruct (Rlt_dec 0 dy).
  - rewrite atan2_opp_x_upper by lra.
    replace (Math.PI - Math.atan2 dy dx - Math.PI / 2)
      with (- (Math.atan2 dy dx - Math.PI / 2)) by lra.
    apply Rabs_Ropp.
  - destruct (Rlt_dec dy 0); [| reflexivity].
    rewrite atan2_opp_x_lower by lra.
    replace (- Math.PI - Math.atan2 dy dx + Math.PI / 2)
      with (- (Math.atan2 dy dx + Math.PI / 2)) by lra.
    apply Rabs_Ropp.
Qed.

Lemma hypot_opp_x (x y : R) : Math.hypot (- x) y = Math.hypot x y.
Proof. unfold Math.hypot. f_equal. ring. Qed.

Lemma hypot_opp_y (x y : R) : Math.hypot x (- y) = Math.hypot x y.
Proof. unfold Math.hypot. f_equal. ring. Qed.

(** [calculateDirection] through the deviation, whatever the distance. *)
Lemma calculateDirection_cases (c : Config) (dx dy : R) :
  calculateDirection c (dx, dy) =
    if Rgt_dec (Math.hypot dx dy) (minDistance c) then
      Some (if Rlt_dec (ray_deviation dx dy) (yRadian c / 2) then DirY else DirX)
    else None.
Proof.
  destruct (Rgt_dec (Math.hypot dx dy) (minDistance c)) as [H | H].
  - now apply calculateDirection_angle.
  - apply calculateDirection_None. lra.
Qed.

End AxisSymmetry.

(** X11: the axis a displacement locks does not depend on its direction
    along either axis: mirroring it left to right or top to bottom gives the
    same result, so a swipe and its reverse are classified alike. *)
Theorem axis_ignores_the_signs (c : Config) (dx dy : R) :
  calculateDirection c (- dx, dy) = calculateDirection c (dx, dy) /\
  calculateDirection c (dx, - dy) = calculateDirection c (dx, dy) /\
  calculateDirection c (- dx, - dy) = calculateDirection c (dx, dy).
Proof.
  rewrite !calculateDirection_cases.
  rewrite !hypot_opp_x, !hypot_opp_y, !ray_deviation_opp_x, !ray_deviation_opp_y.
  repeat split.
Qed.

Section DefaultWindow.

Lemma atan_lt_iff (a b : R) : atan a < atan b <-> a < b.
Proof.
  split; [| apply atan_increasing].
  intros H. destruct (Rlt_dec a b) as [| Hn]; [assumption | exfalso].
  destruct (Req_dec a b) as [-> | Hne]; [lra |].
  assert (b < a) by lra. pose proof (atan_increasing b a H0). lra.
Qed.

(** In the open first quadrant the deviation from the vertical is below
    PI / 4 exactly above the diagonal. *)
Lemma ray_deviation_first_quadrant (dx dy : R) :
  0 < dx -> 0 < dy -> (ray_deviation dx dy < Math.PI / 4 <-> dx < dy).
Proof.
  intros Hx Hy. unfold ray_deviation, Math.atan2, Math.abs, Math.PI.
  destruct (Rlt_dec 0 dy); [| lra]. destruct (Rlt_dec 0 dx); [| lra].
  pose proof (atan_bound (dy / dx)) as [Hlo Hhi].
  replace (atan (dy / dx) - PI / 2) with (- (PI / 2 - atan (dy / dx))) by lra.
  rewrite Rabs_Ropp, Rabs_pos_eq by lra.
  assert (Hq : 1 < dy / dx <-> dx < dy).
  { split; intros H.
    - apply (Rmult_lt_compat_r dx) in H; [| lra].
      replace (dy / dx * dx) with dy in H by (field; lra). lra.
    - apply (Rmult_lt_reg_r dx); [lra |].
      replace (dy / dx * dx) with dy by (field; lra). lra. }
  pose proof (atan_lt_iff 1 (dy / dx)) as Ha. rewrite atan_1 in Ha.
  split; intros H.
  - apply Hq, Ha. lra.
  - apply Hq, Ha in H. lra.
Qed.

Lemma ray_deviation_quarter (dx dy : R) :
  ray_deviation dx dy < Math.PI / 4 <-> Rabs dx < Rabs dy.
Proof.
  assert (Hpos : forall x y, 0 <= x -> 0 <= y ->
                   (ray_deviation x y < Math.PI / 4 <-> x < y)).
  { intros x y Hx Hy. pose proof PI_pos as HPI.
    destruct (Req_dec y 0) as [-> | Hy0].
    - unfold ray_deviation. destruct (Rlt_dec 0 0); [lra |]. split; lra.
    - destruct (Req_dec x 0) as [-> | Hx0].
      + unfold ray_deviation, Math.atan2, Math.abs.
        destruct (Rlt_dec 0 y); [| lra]. destruct (Rlt_dec 0 0); [lra |].
        replace (Math.PI / 2 - Math.PI / 2) with 0 by lra. rewrite Rabs_R0.
        split; lra.
      + apply ray_deviation_first_quadrant; lra. }
  unfold Rabs at 1 2.
  destruct (Rcase_abs dx), (Rcase_abs dy).
  - rewrite <- (ray_deviation_opp_x dx dy), <- ray_deviation_opp_y. apply Hpos; lra.
  - rewrite <- ray_deviation_opp_x. apply Hpos; lra.
  - rewrite <- ray_deviation_opp_y. apply Hpos; lra.
  - apply Hpos; lra.
Qed.

End DefaultWindow.

Lemma calculateDirection_quarter (c : Config) (dx dy : R) :
  yRadian c = Math.PI / 2 ->
  Math.hypot dx dy > minDistance c ->
  calculateDirection c (dx, dy) =
    Some (if Rlt_dec (Rabs dx) (Rabs dy) then DirY else DirX).
Proof.
  intros Hw Hd. rewrite (calculateDirection_angle c dx dy Hd), Hw.
  replace (Math.PI / 2 / 2) with (Math.PI / 4) by lra.
  pose proof (ray_deviation_quarter dx dy) as H.
  destruct (Rlt_dec (ray_deviation dx dy) (Math.PI / 4)),
    (Rlt_dec (Rabs dx) (Rabs dy)); tauto.
Qed.

(** X12: with the default window [yRadian = PI / 2], a displacement beyond
    [minDistance] locks the vertical axis exactly when [|dy| > |dx|], and
    the horizontal axis otherwise; on the diagonals the horizontal wins. *)
Theorem default_window_compares_displacements (c : Config) (dx dy : R) :
  yRadian c = Math.PI / 2 ->
  Math.hypot dx dy > minDistance c ->
  calculateDirection c (dx, dy) =
    Some (if Rlt_dec (Rabs dx) (Rabs dy) then DirY else DirX).
Proof. apply calculateDirection_quarter. Qed.

Lemma default_window_compares_displacements_witness :
  calculateDirection defaults (-30, 40) =
    Some (if Rlt_dec (Rabs (-30)) (Rabs 40) then DirY else DirX).
Proof.
  apply (default_window_compares_displacements defaults (-30) 40).
  - reflexivity.
  - rewrite minDistance_defaults. apply hypot_gt; lra.
Defined.

(** X22: under the default configuration a swipe made of one move is
    recognised by its larger displacement: more than 20 along x and no more
    along y fires [movex] with [dx] and then [slideright] or [slideleft] by
    the sign of [dx]; more than 20 along y and less along x fires [movey]
    with [dy] and then [slidedown] or [slideup]. *)
Theorem default_swipe_recognised (w x0 y0 x1 y1 : R) :
  (20 < Rabs (x1 - x0) -> Rabs (y1 - y0) <= Rabs (x1 - x0) ->
   run defaults w idle [Start x0 y0; Move x1 y1; End] =
     Ok (idle,
         [fire (Some "movex"%string) (Some (x1 - x0));
          fire (Some (if Rgt_dec (x1 - x0) 0 then "slideright" else "slideleft")%string)
               None])) /\
  (20 < Rabs (y1 - y0) -> Rabs (x1 - x0) < Rabs (y1 - y0) ->
   run defaults w idle [Start x0 y0; Move x1 y1; End] =
     Ok (idle,
         [fire (Some "movey"%string) (Some (y1 - y0));
          fire (Some (if Rgt_dec (y1 - y0) 0 then "slidedown" else "slideup")%string)
               None])).
Proof.
  split; intros Hfar Hcmp.
  - assert (Hd : calculateDirection defaults (x1 - x0, y1 - y0) = Some DirX).
    { rewrite calculateDirection_quarter; [| reflexivity |].
      - destruct (Rlt_dec _ _); [lra | reflexivity].
      - rewrite minDistance_defaults. apply hypot_gt; [lra |].
        pose proof (Rabs_gt_sqr (x1 - x0) 20 ltac:(lra) Hfar) as Hx.
        pose proof (Rle_0_sqr (y1 - y0)) as Hy. unfold Rsqr in Hy. lra. }
    rewrite (run_drag w defaults x0 y0 x1 y1 DirX End Hd). cbn [step].
    rewrite (touchEndHandler_locked defaults w
               (mkSession (Some (x0, y0)) (Some (x1, y1)) (Some DirX))
               x0 y0 x1 y1 DirX eq_refl eq_refl eq_refl).
    cbn [bind fst snd defaults minDistanceX move_action].
    destruct (Rlt_dec (Rabs (x1 - x0)) 20); [lra | reflexivity].
  - assert (Hd : calculateDirection defaults (x1 - x0, y1 - y0) = Some DirY).
    { rewrite calculateDirection_quarter; [| reflexivity |].
      - destruct (Rlt_dec _ _); [reflexivity | lra].
      - rewrite minDistance_defaults. apply hypot_gt; [lra |].
        pose proof (Rabs_gt_sqr (y1 - y0) 20 ltac:(lra) Hfar) as Hy.
        pose proof (Rle_0_sqr (x1 - x0)) as Hx. unfold Rsqr in Hx. lra. }
    rewrite (run_drag w defaults x0 y0 x1 y1 DirY End Hd). cbn [step].
    rewrite (touchEndHandler_locked defaults w
               (mkSession (Some (x0, y0)) (Some (x1, y1)) (Some DirY))
               x0 y0 x1 y1 DirY eq_refl eq_refl eq_refl).
    cbn [bind fst snd defaults minDistanceY move_action].
    destruct (Rlt_dec (Rabs (y1 - y0)) 20); [lra | reflexivity].
Qed.

Lemma default_swipe_recognised_witness :
  run defaults 300 idle [Start 100 100; Move 70 140; End] =
    Ok (idle,
        [fire (Some "movey"%string) (Some (140 - 100));
         fire (Some (if Rgt_dec (140 - 100) 0 then "slidedown" else "slideup")%string)
              None]).
Proof.
  apply (proj2 (default_swipe_recognised 300 100 100 70 140)).
  - rewrite Rabs_pos_eq; lra.
  - unfold Rabs. destruct (Rcase_abs (70 - 100)), (Rcase_abs (140 - 100)); lra.
Defined.

(** * Further properties of the slider *)

Section Rounding.

Lemma round_near (x : R) : x - 1 / 2 < IZR (Math.round x) <= x + 1 / 2.
Proof.
  unfold Math.round. pose proof (Zfloor_bound (x + 1 / 2)). lra.
Qed.

Lemma round_mono (x y : R) : x <= y -> (Math.round x <= Math.round y)%Z.
Proof. intros H. unfold Math.round. apply Zfloor_le. lra. Qed.

Lemma round_nonneg (x : R) : 0 <= x -> (0 <= Math.round x)%Z.
Proof. intros H. unfold Math.round. apply Zfloor_lub. lra. Qed.

Lemma round_near_integer (k : Z) (t : R) :
  - (1 / 2) <= t < 1 / 2 -> Math.round (IZR k + t) = k.
Proof. intros H. unfold Math.round. apply Zfloor_eq. lra. Qed.

End Rounding.

(** X14: whatever options are given, [normalizeConfig] returns a range with
    [min < max] and a positive [step]; finite options that already satisfy
    this are kept. *)
Theorem normalizeConfig_well_formed (config : Range.Options) :
  Range.min (Range.normalizeConfig config) < Range.max (Range.normalizeConfig config) /\
  0 < Range.step (Range.normalizeConfig config) /\
  (forall lo hi st,
      Range.given_min config = Some lo -> Range.given_max config = Some hi ->
      Range.given_step config = Some st -> lo < hi -> 0 < st ->
      Range.normalizeConfig config = Range.mkRangeConfig lo hi st).
Proof.
  unfold Range.normalizeConfig.
  split; [| split].
  - destruct (Rge_dec _ _); cbn; lra.
  - destruct (Rge_dec _ _); cbn; destruct (Rle_dec _ _); lra.
  - intros lo hi st -> -> -> Hlt Hst.
    destruct (Rge_dec lo hi); [lra |]. destruct (Rle_dec st 0); [lra | reflexivity].
Qed.

Lemma normalizeConfig_well_formed_witness :
  Range.normalizeConfig (Range.mkOptions (Some 0) (Some 10) (Some 3) None) =
    Range.mkRangeConfig 0 10 3.
Proof.
  apply (proj2 (proj2 (normalizeConfig_well_formed
                         (Range.mkOptions (Some 0) (Some 10) (Some 3) None))));
    (reflexivity || lra).
Defined.

(** X15: on a well-formed range [normalizeValue] never goes below [min];
    a value that is not a finite number, or at most [min], gives [min]; a
    value of at least [max] gives [max]; a value strictly between them is
    moved to a whole number of steps above [min], at most half a step away
    (so the result can pass [max] by less than half a step). *)
Theorem normalizeValue_snaps (c : Range.RangeConfig) (value : option R) :
  Range.min c < Range.max c -> 0 < Range.step c ->
  Range.min c <= Range.normalizeValue c value /\
  (value = None -> Range.normalizeValue c value = Range.min c) /\
  (forall v, value = Some v ->
     (v <= Range.min c -> Range.normalizeValue c value = Range.min c) /\
     (Range.max c <= v -> Range.normalizeValue c value = Range.max c) /\
     (Range.min c < v < Range.max c ->
      Rabs (Range.normalizeValue c value - v) <= Range.step c / 2 /\
      exists k, (0 <= k)%Z /\
                Range.normalizeValue c value = IZR k * Range.step c + Range.min c)).
Proof.
  intros Hmm Hst.
  assert (Hin : forall v, Range.min c < v < Range.max c ->
            Range.normalizeValue c (Some v) =
              IZR (Math.round ((v - Range.min c) / Range.step c)) * Range.step c
              + Range.min c).
  { intros v [Hlo Hhi]. unfold Range.normalizeValue.
    destruct (Rle_dec v (Range.min c)); [lra |].
    destruct (Rge_dec v (Range.max c)); [lra | reflexivity]. }
  assert (Hq : forall v, Range.min c < v -> 0 < (v - Range.min c) / Range.step c).
  { intros v Hv. apply Rdiv_lt_0_compat; lra. }
  split; [| split].
  - destruct value as [v |]; cbn; [| lra].
    destruct (Rle_dec v (Range.min c)); [lra |].
    destruct (Rge_dec v (Range.max c)); [lra |].
    pose proof (round_nonneg _ (Rlt_le _ _ (Hq v ltac:(lra)))) as Hk.
    apply IZR_le in Hk. nra.
  - intros ->. reflexivity.
  - intros v ->. split; [| split].
    + intros Hv. cbn. destruct (Rle_dec v (Range.min c)); [reflexivity | lra].
    + intros Hv. cbn. destruct (Rle_dec v (Range.min c)); [lra |].
      destruct (Rge_dec v (Range.max c)); [reflexivity | lra].
    + intros Hv. rewrite (Hin v Hv).
      set (q := (v - Range.min c) / Range.step c).
      pose proof (round_near q) as Hr.
      assert (Ev : v = q * Range.step c + Range.min c) by (unfold q; field; lra).
      split.
      * apply Rabs_le. fold q. split; nra.
      * exists (Math.round q). split; [| reflexivity].
        apply round_nonneg. unfold q. apply Rlt_le, Hq. lra.
Qed.

Lemma normalizeValue_snaps_witness :
  Rabs (Range.normalizeValue (Range.mkRangeConfig 0 10 6) (Some (19 / 2)) - 19 / 2)
    <= 6 / 2.
Proof.
  pose proof (normalizeValue_snaps (Range.mkRangeConfig 0 10 6) (Some (19 / 2))) as H.
  cbn [Range.min Range.max Range.step] in H.
  destruct H as (_ & _ & H); [lra | lra |].
  destruct (H (19 / 2) eq_refl) as (_ & _ & Hin).
  destruct Hin as [Hnear _]; [lra | exact Hnear].
Defined.

Section SliderRange.

Import Range.

Lemma clamped_in_range (c : RangeConfig) (ratio : R) :
  min c <= max c -> min c <= clamped c ratio <= max c.
Proof.
  intros H. unfold clamped, Math.min, Math.max.
  set (t := IZR _ * step c + min c).
  pose proof (Rmax_l (min c) t). pose proof (Rmin_l (max c) (Rmax (min c) t)).
  split; [| assumption].
  apply Rmin_glb; lra.
Qed.

Lemma clamped_mono (c : RangeConfig) (r1 r2 : R) :
  min c <= max c -> 0 < step c -> r1 <= r2 -> clamped c r1 <= clamped c r2.
Proof.
  intros Hmm Hst Hr. unfold clamped, Math.min, Math.max.
  assert (Hq : (max c - min c) * r1 / step c <= (max c - min c) * r2 / step c).
  { unfold Rdiv. apply Rmult_le_compat_r; [left; now apply Rinv_0_lt_compat |].
    apply Rmult_le_compat_l; lra. }
  apply round_mono, IZR_le in Hq.
  apply Rle_min_compat_l, Rle_max_compat_l. nra.
Qed.

Lemma setRatio_clamped (c : RangeConfig) (ratio : R) :
  min c <= max c -> setRatio c ratio = Some (clamped c ratio).
Proof.
  intros H. unfold setRatio.
  destruct (Req_dec_T ratio 0) as [-> | _]; [| reflexivity].
  now rewrite clamped_zero.
Qed.

End SliderRange.

(** X16: on a range with [min <= max] the two special cases of [setRatio]
    make no difference: for every ratio it passes the rounded, clamped
    formula to [updateValue], and that value lies in [[min, max]]. *)
Theorem setRatio_is_the_clamped_formula (c : Range.RangeConfig) (ratio : R) :
  Range.min c <= Range.max c ->
  Range.setRatio c ratio = Some (Range.clamped c ratio) /\
  Range.min c <= Range.clamped c ratio <= Range.max c.
Proof.
  intros H. split; [now apply setRatio_clamped | now apply clamped_in_range].
Qed.

Lemma setRatio_is_the_clamped_formula_witness :
  Range.setRatio (Range.mkRangeConfig 0 10 3) 0 =
    Some (Range.clamped (Range.mkRangeConfig 0 10 3) 0).
Proof.
  apply (setRatio_is_the_clamped_formula (Range.mkRangeConfig 0 10 3) 0).
  cbn. lra.
Defined.

(** X17: on a well-formed range the value [setRatio] chooses never
    decreases when the ratio grows. *)
Theorem setRatio_monotone (c : Range.RangeConfig) (r1 r2 v1 v2 : R) :
  Range.min c <= Range.max c -> 0 < Range.step c -> r1 <= r2 ->
  Range.setRatio c r1 = Some v1 -> Range.setRatio c r2 = Some v2 ->
  v1 <= v2.
Proof.
  intros Hmm Hst Hr. rewrite !setRatio_clamped by exact Hmm.
  intros [= <-] [= <-]. now apply clamped_mono.
Qed.

Lemma setRatio_monotone_witness :
  Range.setRatio (Range.mkRangeConfig 0 10 3) (1 / 2) = Some 6 /\
  Range.setRatio (Range.mkRangeConfig 0 10 3) 1 = Some 9 /\
  6 <= 9.
Proof.
  assert (E1 : Range.setRatio (Range.mkRangeConfig 0 10 3) (1 / 2) = Some 6).
  { rewrite setRatio_clamped by (cbn; lra). f_equal.
    unfold Range.clamped, Math.round, Math.min, Math.max.
    cbn [Range.min Range.max Range.step].
    rewrite (Zfloor_eq 2 ((10 - 0) * (1 / 2) / 3 + 1 / 2)) by lra.
    replace (2 * 3 + 0) with 6 by lra.
    rewrite Rmax_right by lra. apply Rmin_right. lra. }
  assert (E2 : Range.setRatio (Range.mkRangeConfig 0 10 3) 1 = Some 9).
  { rewrite setRatio_one. now rewrite clamped_one_step_three. }
  split; [exact E1 | split; [exact E2 |]].
  apply (setRatio_monotone (Range.mkRangeConfig 0 10 3) (1 / 2) 1 6 9);
    try assumption; cbn; lra.
Defined.

(** X18: on a track of positive width [mouseMove] always chooses a value in
    [[min, max]]; a pointer at or left of the track's left edge gives [min],
    and a pointer at or right of its right edge gives what the ratio 1
    gives. *)
Theorem mouseMove_clamps_to_the_track (c : Range.RangeConfig)
        (left width pageX : R) :
  Range.min c <= Range.max c -> 0 < width ->
  (exists v, Range.mouseMove c left width pageX = Some v /\
             Range.min c <= v <= Range.max c) /\
  (pageX <= left -> Range.mouseMove c left width pageX = Some (Range.min c)) /\
  (left + width <= pageX ->
   Range.mouseMove c left width pageX = Range.setRatio c 1).
Proof.
  intros Hmm Hw. unfold Range.mouseMove, Math.min, Math.max.
  split; [| split].
  - eexists. split; [now apply setRatio_clamped | now apply clamped_in_range].
  - intros Hp.
    assert (Hr : (pageX - left) / width <= 0).
    { apply (Rmult_le_reg_r width); [exact Hw |].
      replace ((pageX - left) / width * width) with (pageX - left) by (field; lra).
      lra. }
    rewrite Rmax_left by exact Hr. rewrite Rmin_left by lra.
    apply setRatio_zero.
  - intros Hp.
    assert (Hr : 1 <= (pageX - left) / width).
    { apply (Rmult_le_reg_r width); [exact Hw |].
      replace ((pageX - left) / width * width) with (pageX - left) by (field; lra).
      lra. }
    rewrite Rmax_right by lra. now rewrite Rmin_right by exact Hr.
Qed.

Lemma mouseMove_clamps_to_the_track_witness :
  Range.mouseMove (Range.mkRangeConfig 0 10 3) 100 200 40 = Some 0.
Proof.
  apply (proj1 (proj2 (mouseMove_clamps_to_the_track
                         (Range.mkRangeConfig 0 10 3) 100 200 40
                         ltac:(cbn; lra) ltac:(lra)))).
  lra.
Defined.

(** ** Pending updates *)

Section Coalescing.

Import Range.

Lemma fresh_requests_cons (v0 v : R) (vs : list R) :
  fresh_requests v0 (v :: vs) =
    if Req_dec_T v0 v then fresh_requests v0 vs else v :: fresh_requests v0 vs.
Proof. unfold fresh_requests. cbn. now destruct (Req_dec_T v0 v). Qed.

Lemma updateValue_same (s : Slider) (v0 : R) :
  value s = Some v0 -> updateValue s (Some v0) = s.
Proof.
  intros Hv. unfold updateValue. rewrite Hv. cbn.
  destruct (Req_dec_T v0 v0); [reflexivity | contradiction].
Qed.

Lemma updateValue_other (s : Slider) (v0 v : R) :
  value s = Some v0 -> v0 <> v ->
  updateValue s (Some v) =
    mkSlider (config s) (value s) (Some v)
             (match updatePendingValue s with
              | Some _ => awaiting s
              | None => S (awaiting s)
              end) (repeatCount s).
Proof.
  intros Hv N. unfold updateValue. rewrite Hv. cbn.
  destruct (Req_dec_T v0 v); [contradiction |].
  now destruct (updatePendingValue s).
Qed.

Lemma updateValue_pending (vs : list R) :
  forall (s : Slider) (v0 p : R),
    value s = Some v0 -> updatePendingValue s = Some p ->
    fold_left updateValue (map Some vs) s =
      mkSlider (config s) (value s) (Some (List.last (fresh_requests v0 vs) p))
               (awaiting s) (repeatCount s).
Proof.
  induction vs as [| v vs IH]; intros s v0 p Hv Hp.
  - cbn. destruct s; cbn in *. now rewrite Hp.
  - cbn [map fold_left]. rewrite fresh_requests_cons.
    destruct (Req_dec_T v0 v) as [<- | N].
    + rewrite (updateValue_same s v0 Hv). now apply IH.
    + rewrite (updateValue_other s v0 v Hv N), Hp.
      rewrite (IH (mkSlider (config s) (value s) (Some v) (awaiting s)
                            (repeatCount s)) v0 v Hv eq_refl).
      cbn [config value awaiting repeatCount]. now rewrite last_cons.
Qed.

Lemma updateValue_idle (vs : list R) :
  forall (s : Slider) (v0 : R),
    value s = Some v0 -> updatePendingValue s = None ->
    fold_left updateValue (map Some vs) s =
      match fresh_requests v0 vs with
      | [] => s
      | v :: rest =>
          mkSlider (config s) (value s) (Some (List.last rest v))
                   (S (awaiting s)) (repeatCount s)
      end.
Proof.
  induction vs as [| v vs IH]; intros s v0 Hv Hp; [reflexivity |].
  cbn [map fold_left]. rewrite fresh_requests_cons.
  destruct (Req_dec_T v0 v) as [<- | N].
  - rewrite (updateValue_same s v0 Hv). now apply IH.
  - rewrite (updateValue_other s v0 v Hv N), Hp.
    now rewrite (updateValue_pending vs
                   (mkSlider (config s) (value s) (Some v) (S (awaiting s))
                             (repeatCount s)) v0 v Hv eq_refl).
Qed.

End Coalescing.

(** X19: calls of [updateValue] made before the next animation frame are
    coalesced.  Starting with nothing pending, the frame notifies once, with
    the last requested value among those that differ from the value held
    when the series began, and makes it the held value; a request equal to
    the held value is dropped even when another value is already pending;
    if no request differs, nothing is scheduled and nothing is notified. *)
Theorem updates_coalesce_per_frame (s : Range.Slider) (v0 : R) (vs : list R) :
  Range.value s = Some v0 -> Range.updatePendingValue s = None ->
  Range.awaiting s = 0%nat ->
  Range.frame (fold_left Range.updateValue (map Some vs) s) =
    match Range.fresh_requests v0 vs with
    | [] => (s, [])
    | v :: rest =>
        (Range.mkSlider (Range.config s) (Some (List.last rest v)) None 0
                        (Range.repeatCount s),
         [Some (List.last rest v)])
    end.
Proof.
  intros Hv Hp Ha. rewrite (updateValue_idle vs s v0 Hv Hp).
  destruct (Range.fresh_requests v0 vs) as [| v rest].
  - unfold Range.frame. rewrite Ha. destruct s; cbn in *. now subst.
  - unfold Range.frame. cbn [Range.awaiting]. rewrite Ha. reflexivity.
Qed.

Lemma updates_coalesce_per_frame_witness :
  Range.frame
    (fold_left Range.updateValue (map Some [3; 6; 0])
       (Range.mkSlider (Range.mkRangeConfig 0 10 3) (Some 0) None 0 None)) =
    (Range.mkSlider (Range.mkRangeConfig 0 10 3) (Some 6) None 0 None, [Some 6]).
Proof.
  rewrite (updates_coalesce_per_frame
             (Range.mkSlider (Range.mkRangeConfig 0 10 3) (Some 0) None 0 None)
             0 [3; 6; 0] eq_refl eq_refl eq_refl).
  rewrite !fresh_requests_cons.
  destruct (Req_dec_T 0 3); [lra |]. destruct (Req_dec_T 0 6); [lra |].
  destruct (Req_dec_T 0 0); [| lra].
  reflexivity.
Defined.

(** ** The keyboard *)

Section Keyboard.

Import Range.

Lemma base_positive (n : nat) : 0 < (12 / 10) ^ n.
Proof. apply pow_lt. lra. Qed.

(** The factor [Math.min(base, total / 50)] is positive and at most
    [total / 50]. *)
Lemma keyboard_factor (c : RangeConfig) (n : nat) :
  min c < max c -> 0 < step c ->
  0 < Math.min ((12 / 10) ^ n) ((max c - min c) / step c / 50)
    <= (max c - min c) / step c / 50.
Proof.
  intros Hmm Hst. unfold Math.min.
  assert (0 < (max c - min c) / step c / 50).
  { apply Rdiv_lt_0_compat; [apply Rdiv_lt_0_compat |]; lra. }
  pose proof (base_positive n).
  split; [apply Rmin_glb_lt; assumption | apply Rmin_r].
Qed.

Lemma arrow_ratio (code : string) :
  In code ["ArrowUp"; "ArrowDown"; "ArrowRight"; "ArrowLeft"]%string ->
  key_ratio code = 1 \/ key_ratio code = -1.
Proof.
  cbn. intros [<- | [<- | [<- | [<- | []]]]]; cbn; auto.
Qed.

End Keyboard.

(** X20: however long a key repeats, the step [keyboardHandler] asks for is
    at most a fiftieth of the range times the key's factor: 2% of the range
    for the arrow keys, 20% for the page keys. *)
Theorem keyboard_move_bounded (c : Range.RangeConfig) (repeatCount : option nat)
        (code : string) (move : R) :
  Range.min c < Range.max c -> 0 < Range.step c ->
  Range.keyboard_move c repeatCount code = Some move ->
  Rabs move <= (Range.max c - Range.min c) / 50 * Rabs (Range.key_ratio code).
Proof.
  intros Hmm Hst. unfold Range.keyboard_move.
  destruct repeatCount as [n |]; cbn [option_map]; [| discriminate].
  intros [= <-].
  destruct (keyboard_factor c n Hmm Hst) as [Hpos Hle].
  set (f := Math.min _ _) in *.
  rewrite !Rabs_mult, (Rabs_pos_eq f), (Rabs_pos_eq (Range.step c)) by lra.
  pose proof (Rabs_pos (Range.key_ratio code)) as Hr.
  replace ((Range.max c - Range.min c) / 50)
    with ((Range.max c - Range.min c) / Range.step c / 50 * Range.step c)
    by (field; lra).
  assert (f * Range.step c
          <= (Range.max c - Range.min c) / Range.step c / 50 * Range.step c)
    by (apply Rmult_le_compat_r; lra).
  nra.
Qed.

Lemma keyboard_move_bounded_witness :
  exists move,
    Range.keyboard_move (Range.mkRangeConfig 0 100 1) (Some 40%nat) "PageUp" = Some move /\
    Rabs move <= (100 - 0) / 50 * Rabs (Range.key_ratio "PageUp").
Proof.
  eexists. split; [reflexivity |].
  apply (keyboard_move_bounded (Range.mkRangeConfig 0 100 1) (Some 40%nat) "PageUp");
    cbn [Range.min Range.max Range.step]; try lra.
  reflexivity.
Defined.

(** X21: on a slider whose range is a whole number of steps, fewer than 25,
    the four arrow keys never change anything but [repeatCount]: from a
    value on the grid the step asked for is less than half a step, so
    [normalizeValue] snaps back to the held value and [updateValue] returns
    at once. *)
Theorem arrow_keys_dead_on_coarse_sliders (s : Range.Slider) (n k : Z)
        (repeat : bool) (code : string) :
  0 < Range.step (Range.config s) ->
  Range.max (Range.config s) - Range.min (Range.config s)
    = IZR n * Range.step (Range.config s) ->
  (0 < n < 25)%Z -> (0 <= k <= n)%Z ->
  Range.value s =
    Some (Range.min (Range.config s) + IZR k * Range.step (Range.config s)) ->
  In code ["ArrowUp"; "ArrowDown"; "ArrowRight"; "ArrowLeft"]%string ->
  repeat = false \/ Range.repeatCount s <> None ->
  Range.keyboardHandler s repeat code =
    Range.mkSlider (Range.config s) (Range.value s) (Range.updatePendingValue s)
                   (Range.awaiting s)
                   (if negb repeat then Some O else option_map S (Range.repeatCount s)).
Proof.
  intros Hst Hrange Hn Hk Hv Hcode Hrep.
  destruct s as [c v pend aw rc]. cbn [Range.config Range.value Range.repeatCount
    Range.updatePendingValue Range.awaiting] in *.
  assert (HnR : 0 < IZR n < 25).
  { split; [apply (IZR_lt 0) | apply (IZR_lt n 25)]; lia. }
  assert (HkR : 0 <= IZR k <= IZR n).
  { split; [apply (IZR_le 0) | apply IZR_le]; lia. }
  assert (Hmm : Range.min c < Range.max c) by nra.
  unfold Range.keyboardHandler.
  cbn [Range.config Range.value Range.repeatCount Range.updatePendingValue
       Range.awaiting].
  set (rc' := if negb repeat then Some O else option_map S rc).
  assert (Hrc : exists j, rc' = Some j).
  { unfold rc'. destruct repeat; cbn; [| eauto].
    destruct Hrep as [E | E]; [discriminate |].
    destruct rc as [j |]; [cbn; eauto | contradiction]. }
  destruct Hrc as [j Hj]. rewrite Hj.
  destruct (arrow_ratio code Hcode) as [Hr | Hr];
    (destruct (Req_dec_T (Range.key_ratio code) 0) as [E0 | _]; [lra |]);
    unfold Range.keyboard_move; rewrite Hr, Hv; cbn [option_map];
    destruct (keyboard_factor c j Hmm Hst) as [Hpos Hle];
    set (f := Math.min _ _) in *;
    assert (Hf : f < 1 / 2)
      by (replace ((Range.max c - Range.min c) / Range.step c / 50)
            with (IZR n / 50) in Hle by (rewrite Hrange; field; lra); lra).
  - (* one step up *)
    assert (Enew : Range.normalizeValue c
                     (Some (Range.min c + IZR k * Range.step c
                            + f * 1 * Range.step c))
                   = Range.min c + IZR k * Range.step c).
    { unfold Range.normalizeValue.
      destruct (Rle_dec _ _) as [Hlo | _]; [nra |].
      destruct (Rge_dec _ _) as [Hhi | _].
      - assert (Hkn : IZR n - 1 < IZR k) by nra.
        rewrite <- minus_IZR in Hkn. apply lt_IZR in Hkn.
        assert (k = n) by lia. subst k. lra.
      - replace ((Range.min c + IZR k * Range.step c + f * 1 * Range.step c
                  - Range.min c) / Range.step c) with (IZR k + f) by (field; lra).
        rewrite round_near_integer by lra. ring. }
    rewrite Enew. unfold Range.updateValue. cbn [Range.value Range.strict_eq].
    destruct (Req_dec_T _ _); [reflexivity | contradiction].
  - (* one step down *)
    assert (Enew : Range.normalizeValue c
                     (Some (Range.min c + IZR k * Range.step c
                            + f * -1 * Range.step c))
                   = Range.min c + IZR k * Range.step c).
    { unfold Range.normalizeValue.
      destruct (Rle_dec _ _) as [Hlo | _].
      - assert (IZR k < 1) by nra.
        assert (k = 0)%Z by (apply lt_IZR in H; lia). subst k. lra.
      - destruct (Rge_dec _ _) as [Hhi | _]; [nra |].
        replace ((Range.min c + IZR k * Range.step c + f * -1 * Range.step c
                  - Range.min c) / Range.step c) with (IZR k + - f) by (field; lra).
        rewrite round_near_integer by lra. ring. }
    rewrite Enew. unfold Range.updateValue. cbn [Range.value Range.strict_eq].
    destruct (Req_dec_T _ _); [reflexivity | contradiction].
Qed.

Lemma arrow_keys_dead_on_coarse_sliders_witness :
  Range.keyboardHandler
    (Range.mkSlider (Range.mkRangeConfig 0 10 1) (Some (0 + 5 * 1)) None 0 None)
    false "ArrowRight" =
    Range.mkSlider (Range.mkRangeConfig 0 10 1) (Some (0 + 5 * 1)) None 0 (Some O).
Proof.
  apply (arrow_keys_dead_on_coarse_sliders
           (Range.mkSlider (Range.mkRangeConfig 0 10 1) (Some (0 + 5 * 1)) None 0 None)
           10 5 false "ArrowRight");
    cbn [Range.config Range.min Range.max Range.step Range.value];
    try lra; try lia; try reflexivity.
  right. right. now left.
Defined.
